(** * Investidores Pacta: the import, join and pipeline logic of the application

    A shallow embedding of the JavaScript of the single-page application:
    the CSV importer ([CsvImportModal.handleImport]), the add-to-pipeline
    dialog ([AddInvestorToProjectModal]), the interaction log of
    [InvestorProfile] and the snapshot callbacks of [App].

    JavaScript strings are sequences of UTF-16 code units, objects are
    finite maps from property names to values, the Firestore database is a
    finite map from document paths to documents, and React state together
    with the closures of the live subscriptions is an explicit record. *)

From Stdlib Require Import ZArith NArith Ascii String List Lia.
From stdpp Require Import base option list gmap fin_maps.

Local Open Scope Z_scope.

(** ** JavaScript strings *)

Module Js.

(** A code unit of a JavaScript string. *)
Definition char : Type := N.

(** A JavaScript string, as the sequence of its UTF-16 code units. *)
Definition jsstring : Type := list char.

(** An ASCII literal of the source as a JavaScript string. *)
Definition lit (s : string) : jsstring :=
  List.map N_of_ascii (list_ascii_of_string s).

Definition LF : char := 10%N.          (* '\n' *)
Definition SEMI : char := 59%N.        (* ';'  *)
Definition PLUS : char := 43%N.        (* '+'  *)
Definition MINUS : char := 45%N.       (* '-'  *)
Definition SLASH : char := 47%N.       (* '/'  *)

(** WhiteSpace and LineTerminator of ECMAScript: what [trim] strips and
    what [parseInt] skips. *)
Definition is_ws (c : char) : bool :=
  ((9 <=? c) && (c <=? 13) || (c =? 32) || (c =? 160) || (c =? 5760)
   || (8192 <=? c) && (c <=? 8202) || (c =? 8232) || (c =? 8233)
   || (c =? 8239) || (c =? 8287) || (c =? 12288) || (c =? 65279))%N.

Fixpoint trimStart (s : jsstring) : jsstring :=
  match s with
  | c :: r => if is_ws c then trimStart r else s
  | [] => []
  end.

Definition trimEnd (s : jsstring) : jsstring := rev (trimStart (rev s)).

(** [String.prototype.trim]. *)
Definition trim (s : jsstring) : jsstring := trimEnd (trimStart s).

(** [s.split(sep)] for a separator of one code unit: never empty, and the
    empty string splits into one empty piece. *)
Fixpoint split (sep : char) (s : jsstring) : list jsstring :=
  match s with
  | [] => [[]]
  | c :: r =>
      if (c =? sep)%N then [] :: split sep r
      else match split sep r with
           | piece :: pieces => (c :: piece) :: pieces
           | [] => [[c]]
           end
  end.

Definition is_digit (c : char) : bool := ((48 <=? c) && (c <=? 57))%N.

Definition digit_val (c : char) : Z := Z.of_N c - 48.

(** The longest prefix of decimal digits. *)
Fixpoint digits_prefix (s : jsstring) : jsstring :=
  match s with
  | c :: r => if is_digit c then c :: digits_prefix r else []
  | [] => []
  end.

Definition digits_value (ds : jsstring) : Z :=
  fold_left (fun acc c => 10 * acc + digit_val c) ds 0.

(** [parseInt(s, 10)]: leading white space is skipped, one sign is read,
    then the longest run of decimal digits; [None] is NaN.  The integer
    [z] stands for the Number nearest to it. *)
Definition parseInt10 (s : jsstring) : option Z :=
  let s1 := trimStart s in
  let '(sign, s2) :=
    match s1 with
    | c :: r => if (c =? MINUS)%N then (-1, r)
                else if (c =? PLUS)%N then (1, r) else (1, s1)
    | [] => (1, s1)
    end in
  match digits_prefix s2 with
  | [] => None
  | ds => Some (sign * digits_value ds)
  end.

(** Decimal digits of a natural number, for template literals. *)
Fixpoint digits_of (fuel n : nat) (acc : jsstring) : jsstring :=
  match fuel with
  | O => acc
  | S fuel' =>
      let acc' := (N.of_nat (n mod 10) + 48)%N :: acc in
      if (n / 10 =? 0)%nat then acc' else digits_of fuel' (n / 10)%nat acc'
  end.

Definition of_nat (n : nat) : jsstring := digits_of (S n) n [].

End Js.

Import Js.

(** ** Values and objects *)

Set Warnings "-register-all".

(** What a property of an object or a field of a Firestore document
    holds.  [VNum z] is the Number for the integer [z]; a JavaScript [Date]
    and a Firestore [Timestamp] carry their milliseconds.  [undefined] is
    the absence of a property: a property read is a lookup, [None] when
    the object has no such property. *)
Inductive value : Type :=
  | VNull
  | VBool (b : bool)
  | VNum (z : Z)
  | VStr (s : jsstring)
  | VDate (ms : Z)
  | VTimestamp (ms : Z)
  | VArr (items : list value)
  | VObj (fields : gmap jsstring value).

(** An object literal, or the data of a document. *)
Abbreviation obj := (gmap jsstring value).

(** ToBoolean. *)
Definition truthy (v : value) : bool :=
  match v with
  | VNull => false
  | VBool b => b
  | VNum z => negb (z =? 0)
  | VStr s => negb (bool_decide (s = []))
  | VDate _ | VTimestamp _ | VArr _ | VObj _ => true
  end.

(** ToBoolean of a property read or of a nullable state variable
    ([None] is [undefined] or [null]). *)
Definition truthy_opt (o : option value) : bool := from_option truthy false o.

(** [x === s] for a string [s]. *)
Definition strict_eq_str (x : option value) (s : jsstring) : bool :=
  match x with
  | Some (VStr s') => bool_decide (s' = s)
  | _ => false
  end.

(** SameValueZero, the comparison of [Set.prototype.has].  Arrays, objects
    and dates compare by reference; the two sides here are read from
    different snapshots, so they are never the same reference. *)
Definition sameValueZero (x y : option value) : bool :=
  match x, y with
  | None, None => true
  | Some VNull, Some VNull => true
  | Some (VBool a), Some (VBool b) => bool_decide (a = b)
  | Some (VNum a), Some (VNum b) => bool_decide (a = b)
  | Some (VStr a), Some (VStr b) => bool_decide (a = b)
  | _, _ => false
  end.

(** Property names used by the application. *)
Definition k_id : jsstring := lit "id".
Definition k_nomeFantasia : jsstring := lit "nomeFantasia".
Definition k_classificacao : jsstring := lit "classificacao".
Definition k_tipo : jsstring := lit "tipo".
Definition k_setor : jsstring := lit "setor".
Definition k_creditoEquity : jsstring := lit "creditoEquity".
Definition k_nota : jsstring := lit "nota".
Definition k_justificativa : jsstring := lit "justificativa".
Definition k_email1 : jsstring := lit "email1".
Definition k_email2 : jsstring := lit "email2".
Definition k_telefone : jsstring := lit "telefone".
Definition k_linkedin : jsstring := lit "linkedin".
Definition k_dataDeCriacao : jsstring := lit "dataDeCriacao".
Definition k_notaDePrioridade : jsstring := lit "notaDePrioridade".
Definition k_status : jsstring := lit "status".
Definition k_historicoDeInteracoes : jsstring := lit "historicoDeInteracoes".
Definition k_data : jsstring := lit "data".
Definition k_anotacoes : jsstring := lit "anotacoes".

(** ** The Firestore client

    The record store is outside the application.  Its contract, as the
    application uses it: documents live at paths, a batch of [set]
    operations commits all of them or none, [updateDoc] merges top-level
    fields into an existing document and fails when there is none, and a
    [Date] is stored as a [Timestamp].  Whether a request succeeds is
    decided by the store ([ok]). *)

Definition path : Type := list jsstring.

(** A stored value: each [Date] becomes a [Timestamp]. *)
Fixpoint toFirestore (v : value) : value :=
  match v with
  | VDate ms => VTimestamp ms
  | VArr items => VArr (toFirestore <$> items)
  | VObj fields => VObj (toFirestore <$> fields)
  | _ => v
  end.

(** One [batch.set(ref, data)]. *)
Record write : Type := Set_ { w_ref : path; w_data : obj }.

Inductive request : Type :=
  | Commit (writes : list write)
  | Update (ref : path) (fields : obj).

Record Firestore : Type := {
  docs : gmap path obj;          (* the documents *)
  requests : list request        (* the write requests sent so far *)
}.

(** [s.indexOf('//') >= 0] *)
Fixpoint hasDoubleSlash (s : jsstring) : bool :=
  match s with
  | c :: r =>
      match r with
      | c' :: _ => ((c =? SLASH) && (c' =? SLASH))%N || hasDoubleSlash r
      | [] => false
      end
  | [] => false
  end.

(** One argument of [doc] or [collection]: it must be a string without
    "//"; it is cut at the slashes and the empty pieces are dropped.
    Anything else throws ([None]). *)
Definition pathComponent (x : option value) : option (list jsstring) :=
  match x with
  | Some (VStr s) =>
      if hasDoubleSlash s then None
      else Some (List.filter (fun piece => negb (bool_decide (piece = [])))
                             (split SLASH s))
  | _ => None
  end.

Definition resourcePath (components : list (option value)) : option path :=
  (fun pieces => concat pieces) <$> mapM pathComponent components.

(** [doc(db, ...components)]: a document path has an even number of
    segments. *)
Definition docRef (components : list (option value)) : option path :=
  p ← resourcePath components;
  if Nat.even (length p) then Some p else None.

(** [collection(db, ...components)]: a collection path has an odd number
    of segments. *)
Definition collectionRef (components : list (option value)) : option path :=
  p ← resourcePath components;
  if Nat.odd (length p) then Some p else None.

(** A string literal as an argument. *)
Definition str (s : string) : option value := Some (VStr (lit s)).

Definition applyWrite (d : gmap path obj) (w : write) : gmap path obj :=
  <[w_ref w := toFirestore <$> w_data w]> d.

(** [await batch.commit()]: the result and whether the promise resolved. *)
Definition commit (ok : bool) (b : list write) (fs : Firestore) : Firestore * bool :=
  ({| docs := if ok then foldl applyWrite (docs fs) b else docs fs;
      requests := requests fs ++ [Commit b] |}, ok).

(** [await updateDoc(ref, fields)]. *)
Definition updateDoc (ok : bool) (ref : path) (fields : obj) (fs : Firestore)
  : Firestore * bool :=
  match docs fs !! ref with
  | Some old =>
      ({| docs := if ok then <[ref := (toFirestore <$> fields) ∪ old]> (docs fs)
                  else docs fs;
          requests := requests fs ++ [Update ref fields] |}, ok)
  | None =>
      ({| docs := docs fs; requests := requests fs ++ [Update ref fields] |}, false)
  end.

(** A document of a query snapshot: [doc.id] and [doc.data()]. *)
Record QueryDoc : Type := { doc_id : jsstring; doc_data : obj }.

(** The documents of the collection [coll], as a snapshot delivers them
    (in the order of the store). *)
Definition collectionDocs (d : gmap path obj) (coll : path) : list QueryDoc :=
  omap (fun '(p, data) =>
          match last p with
          | Some name =>
              if bool_decide (p = coll ++ [name])
              then Some {| doc_id := name; doc_data := data |} else None
          | None => None
          end) (map_to_list d).

(** [{ id: doc.id, ...doc.data() }], the object the snapshot callbacks
    build for a project or a master investor. *)
Definition withId (d : QueryDoc) : obj :=
  doc_data d ∪ {[ k_id := VStr (doc_id d) ]}.

(** What a handler asks of the view: [showToast], [onClose] and the reset
    of the notes field. *)
Inductive ToastType : Type := success | error.

Inductive ui : Type :=
  | ShowToast (message : jsstring) (type : ToastType)
  | Close
  | ClearNotes.

Section App.

(** [appId], fixed by the hosting environment when the module loads. *)
Variable appId : jsstring.

(** ** Bulk import: [CsvImportModal] *)

(** Header names with letters outside ASCII: 231 is c-cedilla, 227 is
    a-tilde, 233 is e-acute. *)
Definition h_NomeFantasia : jsstring := lit "NomeFantasia".
Definition h_Classificacao : jsstring := lit "Classifica" ++ [231%N; 227%N] ++ lit "o".
Definition h_Tipo : jsstring := lit "Tipo".
Definition h_Setor : jsstring := lit "Setor".
Definition h_CreditoEquity : jsstring := lit "Cr" ++ [233%N] ++ lit "dito/Equity".
Definition h_Nota : jsstring := lit "Nota".
Definition h_Justificativa : jsstring := lit "Justificativa".
Definition h_Email1 : jsstring := lit "Email 1".
Definition h_Email2 : jsstring := lit "Email 2".
Definition h_Telefone : jsstring := lit "Telefone".
Definition h_Linkedin : jsstring := lit "Linkedin".

(** [obj[header] = v] on an object created by [{}], for a string [v]:
    assigning a string to [__proto__] changes nothing. *)
Definition setProp (header v : jsstring) (o : gmap jsstring jsstring)
  : gmap jsstring jsstring :=
  if bool_decide (header = lit "__proto__") then o else <[header := v]> o.

(** [values[index] ? values[index].trim() : ''] *)
Definition cell (values : list jsstring) (index : nat) : jsstring :=
  match values !! index with
  | Some v => if bool_decide (v = []) then [] else trim v
  | None => []
  end.

(** [headers.reduce((obj, header, index) => { obj[header] = ...; return obj; }, {})] *)
Definition rowObject (headers values : list jsstring) : gmap jsstring jsstring :=
  foldl (fun o '(index, header) => setProp header (cell values index) o)
        ∅ (imap pair headers).

(** [investorData[name] || ''] *)
Definition orEmpty (x : option jsstring) : value :=
  match x with
  | Some s => VStr s
  | None => VStr []
  end.

(** [parseInt(investorData['Nota'], 10) || 0]; [parseInt] reads
    [undefined] as the string "undefined". *)
Definition notaOf (x : option jsstring) : value :=
  match parseInt10 (from_option id (lit "undefined") x) with
  | Some z => if z =? 0 then VNum 0 else VNum z
  | None => VNum 0
  end.

Definition mappedData (investorData : gmap jsstring jsstring) (now : Z) : obj :=
  <[k_nomeFantasia := orEmpty (investorData !! h_NomeFantasia)]>
  (<[k_classificacao := orEmpty (investorData !! h_Classificacao)]>
  (<[k_tipo := orEmpty (investorData !! h_Tipo)]>
  (<[k_setor := orEmpty (investorData !! h_Setor)]>
  (<[k_creditoEquity := orEmpty (investorData !! h_CreditoEquity)]>
  (<[k_nota := notaOf (investorData !! h_Nota)]>
  (<[k_justificativa := orEmpty (investorData !! h_Justificativa)]>
  (<[k_email1 := orEmpty (investorData !! h_Email1)]>
  (<[k_email2 := orEmpty (investorData !! h_Email2)]>
  (<[k_telefone := orEmpty (investorData !! h_Telefone)]>
  (<[k_linkedin := orEmpty (investorData !! h_Linkedin)]>
  (<[k_dataDeCriacao := VDate now]> ∅))))))))))).

(** [lines] and [headers] of [handleImport], from the text that passed the
    guard. *)
Definition csvLines (csvData : jsstring) : list jsstring := split LF (trim csvData).

Definition csvHeaders (lines : list jsstring) : list jsstring :=
  trim <$> split SEMI (trim (hd [] lines)).

Definition investorsToImport (csvData : jsstring) : list (gmap jsstring jsstring) :=
  let lines := csvLines csvData in
  let headers := csvHeaders lines in
  (fun line => rowObject headers (split SEMI (trim line))) <$> tl lines.

(** What the store and the clock supply during an import: the identifier
    [doc(investorsCollection)] generates at its [i]-th call, the time
    [new Date()] reads there, and whether the commit succeeds. *)
Record ImportEnv : Type := {
  auto_id : nat -> jsstring;
  clock : nat -> Z;
  commit_ok : bool
}.

Definition investorsCollection (userId : option jsstring) : option path :=
  collectionRef [str "artifacts"; Some (VStr appId); str "users"; VStr <$> userId;
                 str "investors"].

Definition msg_paste : jsstring := lit "Por favor, cole os dados do seu CSV.".
Definition msg_imported (n : nat) : jsstring :=
  of_nat n ++ lit " investidores importados com sucesso!".
Definition msg_import_failed : jsstring :=
  lit "Ocorreu um erro na importa" ++ [231%N; 227%N] ++ lit "o.".

Definition handleImport (env : ImportEnv) (userId : option jsstring)
    (csvData : jsstring) (fs : Firestore) : Firestore * list ui :=
  if bool_decide (trim csvData = []) then (fs, [ShowToast msg_paste error])
  else
    let toImport := investorsToImport csvData in
    match investorsCollection userId with
    | None => (fs, [ShowToast msg_import_failed error])
    | Some coll =>
        let batch :=
          imap (fun i investorData =>
                  Set_ (coll ++ [auto_id env i])
                       (mappedData investorData (clock env i))) toImport in
        match commit (commit_ok env) batch fs with
        | (fs', true) => (fs', [ShowToast (msg_imported (length toImport)) success; Close])
        | (fs', false) => (fs', [ShowToast msg_import_failed error])
        end
    end.

(** ** Add to pipeline: [AddInvestorToProjectModal] *)

Definition availableInvestors (masterInvestors projectInvestors : list obj)
    (classificationFilter sectorFilter : jsstring) : list obj :=
  let projectInvestorIds := (fun pi => pi !! k_id) <$> projectInvestors in
  List.filter
    (fun mi =>
       negb (existsb (sameValueZero (mi !! k_id)) projectInvestorIds)
       && (bool_decide (classificationFilter = [])
           || strict_eq_str (mi !! k_classificacao) classificationFilter)
       && (bool_decide (sectorFilter = [])
           || strict_eq_str (mi !! k_setor) sectorFilter))
    masterInvestors.

(** [collection(db, 'artifacts', appId, 'users', userId, 'projects',
    selectedProjectId, 'pipeline')] *)
Definition pipelineCollection (userId : option jsstring)
    (selectedProjectId : option value) : option path :=
  collectionRef [str "artifacts"; Some (VStr appId); str "users"; VStr <$> userId;
                 str "projects"; selectedProjectId; str "pipeline"].

(** [doc(db, 'artifacts', appId, 'users', userId, 'projects',
    selectedProjectId, 'pipeline', investorId)] *)
Definition pipelineRef (userId : option jsstring)
    (selectedProjectId investorId : option value) : option path :=
  docRef [str "artifacts"; Some (VStr appId); str "users"; VStr <$> userId;
          str "projects"; selectedProjectId; str "pipeline"; investorId].

(** 'Nao Contatado', with a-tilde (227). *)
Definition s_NaoContatado : jsstring := lit "N" ++ [227%N] ++ lit "o Contatado".

(** [{ notaDePrioridade: 3, status: 'Nao Contatado', historicoDeInteracoes: [] }] *)
Definition defaultEntry : obj :=
  <[k_notaDePrioridade := VNum 3]>
  (<[k_status := VStr s_NaoContatado]>
  (<[k_historicoDeInteracoes := VArr []]> ∅)).

Definition msg_added (n : nat) : jsstring :=
  of_nat n ++ lit " investidor(es) adicionado(s) com sucesso!".
Definition msg_add_failed : jsstring := lit "Falha ao adicionar investidores.".

Definition handleAdd (ok : bool) (userId : option jsstring)
    (selectedProjectId : option value) (selectedInvestors : list (option value))
    (fs : Firestore) : Firestore * list ui :=
  if (length selectedInvestors =? 0)%nat then (fs, [])
  else
    match mapM (pipelineRef userId selectedProjectId) selectedInvestors with
    | None => (fs, [ShowToast msg_add_failed error])
    | Some refs =>
        let batch := (fun pipelineRef => Set_ pipelineRef defaultEntry) <$> refs in
        match commit ok batch fs with
        | (fs', true) =>
            (fs', [ShowToast (msg_added (length selectedInvestors)) success; Close])
        | (fs', false) => (fs', [ShowToast msg_add_failed error])
        end
    end.

(** ** The Pipeline Joiner: the callback of the pipeline subscription *)

(** [{ id: doc.id, ...masterData, ...pipelineData }] *)
Definition mergeEntry (doc : QueryDoc) (masterData : obj) : obj :=
  doc_data doc ∪ (masterData ∪ {[ k_id := VStr (doc_id doc) ]}).

(** [masterInvestors.find(mi => mi.id === doc.id)] *)
Definition findMaster (masterInvestors : list obj) (id : jsstring) : option obj :=
  List.find (fun mi => strict_eq_str (mi !! k_id) id) masterInvestors.

(** [pipelineSnap.docs.map(doc => ...).filter(Boolean)]; [None] is the
    [null] of an entry without master, every merged object is truthy. *)
Definition investorsInProject (masterInvestors : list obj)
    (pipelineDocs : list QueryDoc) : list obj :=
  omap id
    ((fun doc =>
        match findMaster masterInvestors (doc_id doc) with
        | None => None
        | Some masterData => Some (mergeEntry doc masterData)
        end) <$> pipelineDocs).

(** ** The interaction log: [InvestorProfile] *)

(** [{...item, data: item.data.toDate()}]: only an object whose [data] is
    a [Timestamp] has [toDate]; anything else throws ([None]). *)
Definition withDate (item : value) : option value :=
  match item with
  | VObj fields =>
      match fields !! k_data with
      | Some (VTimestamp ms) => Some (VObj (<[k_data := VDate ms]> fields))
      | _ => None
      end
  | _ => None
  end.

(** [investor.historicoDeInteracoes ? investor.historicoDeInteracoes.map(...) : []];
    a truthy value that is no array has no [map] and throws. *)
Definition existingInteractions (investor : obj) : option (list value) :=
  match investor !! k_historicoDeInteracoes with
  | Some v =>
      if truthy v
      then match v with VArr items => mapM withDate items | _ => None end
      else Some []
  | None => Some []
  end.

Definition newInteraction (now : Z) (interactionType interactionNotes : jsstring) : value :=
  VObj (<[k_data := VDate now]>
        (<[k_tipo := VStr interactionType]>
        (<[k_anotacoes := VStr interactionNotes]> ∅))).

Definition msg_interaction_added : jsstring :=
  lit "Intera" ++ [231%N; 227%N] ++ lit "o adicionada com sucesso!".
Definition msg_interaction_failed : jsstring :=
  lit "Erro ao adicionar intera" ++ [231%N; 227%N] ++ lit "o.".

Definition handleAddInteraction (ok : bool) (now : Z) (userId : option jsstring)
    (selectedProjectId : option value) (investor : obj) (isMasterProfile : bool)
    (interactionType interactionNotes : jsstring) (fs : Firestore)
  : Firestore * list ui :=
  if bool_decide (trim interactionNotes = [])
     || negb (truthy_opt (VStr <$> userId))
     || negb (truthy_opt selectedProjectId)
     || isMasterProfile
  then (fs, [])
  else
    match existingInteractions investor,
          pipelineRef userId selectedProjectId (investor !! k_id) with
    | Some existing, Some ref =>
        let fields : obj :=
          {[ k_historicoDeInteracoes :=
               VArr (existing ++ [newInteraction now interactionType interactionNotes]) ]} in
        match updateDoc ok ref fields fs with
        | (fs', true) => (fs', [ClearNotes; ShowToast msg_interaction_added success])
        | (fs', false) => (fs', [ShowToast msg_interaction_failed error])
        end
    | _, _ => (fs, [ShowToast msg_interaction_failed error])
    end.

(** The history as the profile shows it:
    [[...investor.historicoDeInteracoes].reverse()]. *)
Definition displayedHistory (investor : obj) : list value :=
  match investor !! k_historicoDeInteracoes with
  | Some (VArr items) => rev items
  | _ => []
  end.

(** ** The state of [App] and its callbacks *)

Record AppState : Type := {
  userId : option jsstring;
  projects : list obj;
  selectedProjectId : option value;
  masterInvestors : list obj;
  projectInvestors : list obj;
  selectedInvestor : option obj;
  isMasterProfile : bool;
  toast : option (jsstring * ToastType);
  (* The live projects subscription: the callback was created by the
     effect that depends on [userId] only, and holds the
     [selectedProjectId] of the render that created it. *)
  projectsListener : option (option value)
}.

Definition initial : AppState :=
  {| userId := None; projects := []; selectedProjectId := None;
     masterInvestors := []; projectInvestors := []; selectedInvestor := None;
     isMasterProfile := false; toast := None; projectsListener := None |}.

Definition setProjects (x : list obj) (st : AppState) : AppState :=
  {| userId := userId st; projects := x; selectedProjectId := selectedProjectId st;
     masterInvestors := masterInvestors st; projectInvestors := projectInvestors st;
     selectedInvestor := selectedInvestor st; isMasterProfile := isMasterProfile st;
     toast := toast st; projectsListener := projectsListener st |}.

Definition setSelectedProjectId (x : option value) (st : AppState) : AppState :=
  {| userId := userId st; projects := projects st; selectedProjectId := x;
     masterInvestors := masterInvestors st; projectInvestors := projectInvestors st;
     selectedInvestor := selectedInvestor st; isMasterProfile := isMasterProfile st;
     toast := toast st; projectsListener := projectsListener st |}.

Definition setMasterInvestors (x : list obj) (st : AppState) : AppState :=
  {| userId := userId st; projects := projects st; selectedProjectId := selectedProjectId st;
     masterInvestors := x; projectInvestors := projectInvestors st;
     selectedInvestor := selectedInvestor st; isMasterProfile := isMasterProfile st;
     toast := toast st; projectsListener := projectsListener st |}.

Definition setProjectInvestors (x : list obj) (st : AppState) : AppState :=
  {| userId := userId st; projects := projects st; selectedProjectId := selectedProjectId st;
     masterInvestors := masterInvestors st; projectInvestors := x;
     selectedInvestor := selectedInvestor st; isMasterProfile := isMasterProfile st;
     toast := toast st; projectsListener := projectsListener st |}.

Definition setSelectedInvestor (x : option obj) (st : AppState) : AppState :=
  {| userId := userId st; projects := projects st; selectedProjectId := selectedProjectId st;
     masterInvestors := masterInvestors st; projectInvestors := projectInvestors st;
     selectedInvestor := x; isMasterProfile := isMasterProfile st;
     toast := toast st; projectsListener := projectsListener st |}.

Definition setIsMasterProfile (x : bool) (st : AppState) : AppState :=
  {| userId := userId st; projects := projects st; selectedProjectId := selectedProjectId st;
     masterInvestors := masterInvestors st; projectInvestors := projectInvestors st;
     selectedInvestor := selectedInvestor st; isMasterProfile := x;
     toast := toast st; projectsListener := projectsListener st |}.

Definition setToast (x : option (jsstring * ToastType)) (st : AppState) : AppState :=
  {| userId := userId st; projects := projects st; selectedProjectId := selectedProjectId st;
     masterInvestors := masterInvestors st; projectInvestors := projectInvestors st;
     selectedInvestor := selectedInvestor st; isMasterProfile := isMasterProfile st;
     toast := x; projectsListener := projectsListener st |}.

(** [setUserId] together with the subscription the effect of [userId]
    leaves behind. *)
Definition setUserId (x : option jsstring) (listener : option (option value))
    (st : AppState) : AppState :=
  {| userId := x; projects := projects st; selectedProjectId := selectedProjectId st;
     masterInvestors := masterInvestors st; projectInvestors := projectInvestors st;
     selectedInvestor := selectedInvestor st; isMasterProfile := isMasterProfile st;
     toast := toast st; projectsListener := listener |}.

(** The effect on [selectedProjectId, userId, masterInvestors], at its
    guard: without a project or a user the derived list is emptied. *)
Definition pipelineEffect (st : AppState) : AppState :=
  if negb (truthy_opt (selectedProjectId st)) || negb (truthy_opt (VStr <$> userId st))
  then setProjectInvestors [] st else st.

(** The effect on [userId]. *)
Definition userEffect (user : option jsstring) (st : AppState) : AppState :=
  if negb (truthy_opt (VStr <$> user))
  then setMasterInvestors [] (setProjects [] (setUserId user None st))
  else setUserId user (Some (selectedProjectId st)) st.

(** The callback of the projects subscription; [captured] is the
    [selectedProjectId] its closure holds. *)
Definition onProjectsSnapshot (captured : option value) (snap : list QueryDoc)
    (st : AppState) : AppState :=
  let data := withId <$> snap in
  let st := setProjects data st in
  if (0 <? length data)%nat && negb (truthy_opt captured)
  then setSelectedProjectId (hd ∅ data !! k_id) st
  else if (length data =? 0)%nat then setSelectedProjectId None st
  else st.

Inductive event : Type :=
  | AuthStateChanged (user : option jsstring)
  | ProjectsSnapshot (snap : list QueryDoc)
  | InvestorsSnapshot (snap : list QueryDoc)
  | PipelineSnapshot (snap : list QueryDoc)
  | PickProject (project : obj)
  | SelectInvestor (investor : obj) (isMaster : bool)
  | Back
  | SubmitInteraction (ok : bool) (now : Z) (interactionType interactionNotes : jsstring).

Definition applyUi (st : AppState) (u : ui) : AppState :=
  match u with
  | ShowToast message type => setToast (Some (message, type)) st
  | Close | ClearNotes => st
  end.

(** One callback of the application, run to completion together with the
    effects its state changes trigger. *)
Definition step (w : Firestore * AppState) (e : event) : Firestore * AppState :=
  let '(fs, st) := w in
  match e with
  | AuthStateChanged user =>
      if bool_decide (user = userId st) then w
      else (fs, pipelineEffect (userEffect user st))
  | ProjectsSnapshot snap =>
      match projectsListener st with
      | Some captured => (fs, pipelineEffect (onProjectsSnapshot captured snap st))
      | None => w
      end
  | InvestorsSnapshot snap =>
      if truthy_opt (VStr <$> userId st)
      then (fs, pipelineEffect (setMasterInvestors (withId <$> snap) st)) else w
  | PipelineSnapshot snap =>
      if truthy_opt (selectedProjectId st) && truthy_opt (VStr <$> userId st)
      then (fs, setProjectInvestors (investorsInProject (masterInvestors st) snap) st)
      else w
  | PickProject project =>
      (fs, pipelineEffect (setSelectedProjectId (project !! k_id) st))
  | SelectInvestor investor isMaster =>
      (fs, setIsMasterProfile isMaster (setSelectedInvestor (Some investor) st))
  | Back => (fs, setSelectedInvestor None st)
  | SubmitInteraction ok now interactionType interactionNotes =>
      match selectedInvestor st with
      | Some investor =>
          let '(fs', us) :=
            handleAddInteraction ok now (userId st) (selectedProjectId st) investor
              (isMasterProfile st) interactionType interactionNotes fs in
          (fs', foldl applyUi st us)
      | None => w
      end
  end.

Definition run (w : Firestore * AppState) (es : list event) : Firestore * AppState :=
  foldl step w es.

(** The snapshot the pipeline subscription delivers for the store as it
    is. *)
Definition pipelineSnapshotOf (w : Firestore * AppState) : event :=
  PipelineSnapshot
    (from_option (collectionDocs (docs w.1)) []
       (pipelineCollection (userId w.2) (selectedProjectId w.2))).

End App.

(** ** The other handlers and views *)

(** [toggleSelection] of the add-to-pipeline dialog:
    [prev.includes(investorId) ? prev.filter(id => id !== investorId)
    : [...prev, investorId]].  The identifiers are compared by value, as
    the strings the store names its documents with are. *)
Definition toggleSelection `{EqDecision Id} (investorId : Id) (prev : list Id)
  : list Id :=
  if bool_decide (investorId ∈ prev)
  then List.filter (fun id => negb (bool_decide (id = investorId))) prev
  else prev ++ [investorId].

(** [[...new Set(values)]]: the values in the order of their first
    occurrence. *)
Definition newSet (values : list value) : list value :=
  foldl (fun seen x =>
           if existsb (fun y => sameValueZero (Some y) (Some x)) seen
           then seen else seen ++ [x])
        [] values.

(** [masterInvestors.map(item => item[key]).filter(Boolean)] *)
Definition truthyValues (key : jsstring) (masterInvestors : list obj) : list value :=
  omap (fun item => match item !! key with
                    | Some v => if truthy v then Some v else None
                    | None => None
                    end) masterInvestors.

Definition uniqueClassifications (masterInvestors : list obj) : list value :=
  newSet (truthyValues k_classificacao masterInvestors).

Definition uniqueSectors (masterInvestors : list obj) : list value :=
  newSet (truthyValues k_setor masterInvestors).

(** The columns of the board; 227 is a-tilde, 225 is a-acute. *)
Definition statuses : list jsstring :=
  [ s_NaoContatado; lit "Contatado";
    lit "Reuni" ++ [227%N] ++ lit "o Agendada";
    lit "Em An" ++ [225%N] ++ lit "lise";
    lit "Investido"; lit "Recusado" ].

(** [projectInvestors.filter(inv => inv.status === status)] *)
Definition column (projectInvestors : list obj) (status : jsstring) : list obj :=
  List.filter (fun inv => strict_eq_str (inv !! k_status) status) projectInvestors.

(** [await deleteDoc(ref)]; deleting a document that does not exist
    succeeds. The log of requests keeps the batches and the updates
    only. *)
Definition deleteDoc (ok : bool) (ref : path) (fs : Firestore) : Firestore * bool :=
  ({| docs := if ok then delete ref (docs fs) else docs fs;
      requests := requests fs |}, ok).

(** [await addDoc(coll, data)]: a [set] at an identifier the store
    generates. *)
Definition addDoc (ok : bool) (newId : jsstring) (coll : path) (data : obj)
    (fs : Firestore) : Firestore * bool :=
  ({| docs := if ok then <[coll ++ [newId] := toFirestore <$> data]> (docs fs)
              else docs fs;
      requests := requests fs |}, ok).

Section Views.

Variable appId : jsstring.

(** The text a template literal gives for a value, a primitive of the
    language. *)
Variable toStringValue : option value -> jsstring.

(** [KanbanBoard.handleDrop]; the identifier comes out of the drag data
    and is a string. A failure is logged and nothing else happens. *)
Definition handleDrop (ok : bool) (userId : option jsstring)
    (selectedProjectId : option value) (investorId newStatus : jsstring)
    (fs : Firestore) : Firestore :=
  if bool_decide (investorId = [])
     || negb (truthy_opt (VStr <$> userId))
     || negb (truthy_opt selectedProjectId)
  then fs
  else
    match pipelineRef appId userId selectedProjectId (Some (VStr investorId)) with
    | Some ref => (updateDoc ok ref {[ k_status := VStr newStatus ]} fs).1
    | None => fs
    end.

(** [handlePriorityChange] of the dashboard and of the board. *)
Definition handlePriorityChange (ok : bool) (userId : option jsstring)
    (selectedProjectId investorId : option value) (newPriority : Z)
    (fs : Firestore) : Firestore :=
  if negb (truthy_opt (VStr <$> userId)) || negb (truthy_opt selectedProjectId)
  then fs
  else
    match pipelineRef appId userId selectedProjectId investorId with
    | Some ref => (updateDoc ok ref {[ k_notaDePrioridade := VNum newPriority ]} fs).1
    | None => fs
    end.

(** [doc(db, 'artifacts', appId, 'users', userId, 'investors', investorId)] *)
Definition investorRef (userId : option jsstring) (investorId : option value)
  : option path :=
  docRef [str "artifacts"; Some (VStr appId); str "users"; VStr <$> userId;
          str "investors"; investorId].

Definition msg_deleted (investor : obj) : jsstring :=
  toStringValue (investor !! k_nomeFantasia) ++ lit " foi exclu" ++ [237%N] ++ lit "do.".
Definition msg_delete_failed : jsstring := lit "Falha ao excluir.".

(** [MasterInvestorList.confirmDelete]; [None] is no investor chosen. *)
Definition confirmDelete (ok : bool) (userId : option jsstring)
    (investorToDelete : option obj) (fs : Firestore) : Firestore * list ui :=
  match investorToDelete with
  | None => (fs, [])
  | Some investor =>
      match investorRef userId (investor !! k_id) with
      | None => (fs, [ShowToast msg_delete_failed error])
      | Some ref =>
          match deleteDoc ok ref fs with
          | (fs', true) => (fs', [ShowToast (msg_deleted investor) success])
          | (fs', false) => (fs', [ShowToast msg_delete_failed error])
          end
      end
  end.

(** [collection(db, 'artifacts', appId, 'users', userId, 'projects')] *)
Definition projectsCollection (userId : option jsstring) : option path :=
  collectionRef [str "artifacts"; Some (VStr appId); str "users"; VStr <$> userId;
                 str "projects"].

Definition projectRef (userId : option jsstring) (projectId : option value)
  : option path :=
  docRef [str "artifacts"; Some (VStr appId); str "users"; VStr <$> userId;
          str "projects"; projectId].

Definition k_name : jsstring := lit "name".
Definition k_description : jsstring := lit "description".
Definition k_createdAt : jsstring := lit "createdAt".

(** The form of a project: [undefined] is a field the edited project
    did not have. *)
Record ProjectFormData : Type := {
  form_name : option value;
  form_description : option value
}.

(** The form as a document; the store refuses [undefined] ([None]). *)
Definition formObject (formData : ProjectFormData) : option obj :=
  name ← form_name formData;
  description ← form_description formData;
  Some (<[k_name := name]> (<[k_description := description]> ∅)).

Definition msg_project_updated : jsstring := lit "Projeto atualizado com sucesso!".
Definition msg_project_created : jsstring := lit "Projeto criado com sucesso!".
Definition msg_project_failed : jsstring := lit "Ocorreu um erro ao salvar o projeto.".

(** [ProjectForm.handleSubmit]; [newId] and [now] are what the store and
    the clock supply to [addDoc] and [new Date()]. *)
Definition handleSubmit (ok : bool) (newId : jsstring) (now : Z)
    (userId : option jsstring) (projectToEdit : option obj)
    (formData : ProjectFormData) (fs : Firestore) : Firestore * list ui :=
  if negb (truthy_opt (VStr <$> userId)) then (fs, [])
  else
    match projectToEdit with
    | Some project =>
        match projectRef userId (project !! k_id), formObject formData with
        | Some ref, Some fields =>
            match updateDoc ok ref fields fs with
            | (fs', true) => (fs', [ShowToast msg_project_updated success; Close])
            | (fs', false) => (fs', [ShowToast msg_project_failed error])
            end
        | _, _ => (fs, [ShowToast msg_project_failed error])
        end
    | None =>
        match projectsCollection userId, formObject formData with
        | Some coll, Some fields =>
            match addDoc ok newId coll (<[k_createdAt := VDate now]> fields) fs with
            | (fs', true) => (fs', [ShowToast msg_project_created success; Close])
            | (fs', false) => (fs', [ShowToast msg_project_failed error])
            end
        | _, _ => (fs, [ShowToast msg_project_failed error])
        end
    end.

End Views.

(** ** Vocabulary of the statements *)

(** A text of white space only (the empty text included). *)
Definition blank (s : jsstring) : Prop := Forall (fun c => is_ws c = true) s.

(** A text made of lines: the lines joined by line feeds. *)
Fixpoint joinLines (ls : list jsstring) : jsstring :=
  match ls with
  | [] => []
  | [l] => l
  | l :: rest => l ++ LF :: joinLines rest
  end.

(** An identifier that names one path segment: not empty and without
    slash (the identifiers of the store and of its users are such). *)
Definition valid_segment (s : jsstring) : Prop := s ≠ [] ∧ (SLASH ∉ s).

(** A line of a well-formed import text: one line, and not blank. *)
Definition well_formed_line (l : jsstring) : Prop := (LF ∉ l) ∧ (¬ blank l).

(** A token [parseInt] can read: white space, at most one sign, then a
    decimal digit. *)
Definition numeric (tok : jsstring) : Prop :=
  ∃ ws sign d rest,
    blank ws ∧ (sign = [] ∨ sign = [PLUS] ∨ sign = [MINUS]) ∧
    is_digit d = true ∧ tok = ws ++ sign ++ d :: rest.

(** The column [header] of a row: the trimmed value under the last
    occurrence of the header, empty when the row is too short. *)
Definition is_column (headers : list jsstring) (header : jsstring) (i : nat) : Prop :=
  headers !! i = Some header ∧ ∀ j, (i < j)%nat → headers !! j ≠ Some header.

Definition valueAt (values : list jsstring) (i : nat) : jsstring :=
  from_option trim [] (values !! i).

(** The recognized headers of text fields and the properties they fill. *)
Definition textFields : list (jsstring * jsstring) :=
  [ (h_NomeFantasia, k_nomeFantasia); (h_Classificacao, k_classificacao);
    (h_Tipo, k_tipo); (h_Setor, k_setor); (h_CreditoEquity, k_creditoEquity);
    (h_Justificativa, k_justificativa); (h_Email1, k_email1);
    (h_Email2, k_email2); (h_Telefone, k_telefone); (h_Linkedin, k_linkedin) ].

(** An import is rejected: an error is shown, nothing is sent to the
    store and the dialog stays open. *)
Definition rejected (fs : Firestore) (r : Firestore * list ui) : Prop :=
  r.1 = fs ∧ ∃ message, r.2 = [ShowToast message error].

(** The identifiers of the documents of a collection. *)
Definition collectionIds (d : gmap path obj) (coll : path) : list jsstring :=
  doc_id <$> collectionDocs d coll.

(** A pipeline entry has a master: some master investor carries its
    identifier. *)
Definition has_master (masters : list obj) (d : QueryDoc) : Prop :=
  Exists (fun m => m !! k_id = Some (VStr (doc_id d))) masters.

#[global] Instance is_string_dec (x : option value) (s : jsstring) :
  Decision (x = Some (VStr s)).
Proof.
  destruct x as [[| | |s'| | | |]|]; try (right; discriminate).
  destruct (decide (s' = s)) as [->|Hne]; [by left|].
  right. by intros [= ->].
Defined.

#[global] Instance has_master_dec masters d : Decision (has_master masters d).
Proof. unfold has_master. apply _. Defined.

(** An interaction in the form the store returns it: an object whose
    [data] is a [Timestamp] and that holds no [Date]. *)
Definition stored_item (item : value) : Prop :=
  ∃ fields ms, item = VObj fields ∧ fields !! k_data = Some (VTimestamp ms)
               ∧ toFirestore <$> fields = fields.

(** The line feeds of a text. *)
Definition lineBreaks (s : list char) : nat := length (filter (fun c => c = LF) s).

Definition CR : char := 13%N.          (* '\r' *)

(** A line as a Windows text ends it. *)
Definition withCR (l : jsstring) : jsstring := l ++ [CR].

(** The properties of an imported investor. *)
Definition investorFields : list jsstring :=
  [ k_nomeFantasia; k_classificacao; k_tipo; k_setor; k_creditoEquity; k_nota;
    k_justificativa; k_email1; k_email2; k_telefone; k_linkedin; k_dataDeCriacao ].

(** The root of the documents of one account. *)
Definition accountRoot (appId uid : jsstring) : path :=
  [lit "artifacts"; appId; lit "users"; uid].

(** The guards of the effects: a user is signed in, a project is
    selected. *)
Definition signedIn (st : AppState) : bool := truthy_opt (VStr <$> userId st).
Definition projectChosen (st : AppState) : bool := truthy_opt (selectedProjectId st).

(** What the effects of [App] keep true of the state: signed out, the
    lists are empty and no projects subscription is live; without a
    selected project the derived list is empty. *)
Definition sessionInvariant (st : AppState) : Prop :=
  (signedIn st = false →
     projects st = [] ∧ masterInvestors st = [] ∧ projectInvestors st = []
     ∧ projectsListener st = None)
  ∧ (projectChosen st = false → projectInvestors st = []).

(** The investor has a card on the board: its status names a column. *)
Definition onBoard (inv : obj) : bool :=
  existsb (strict_eq_str (inv !! k_status)) statuses.

(** ** Sample data of the examples *)

Definition sample_appId : jsstring := lit "investidores-pacta-default".
Definition sample_uid : jsstring := lit "u1".

Definition sample_env : ImportEnv :=
  {| auto_id := fun i => lit "inv" ++ of_nat i;
     clock := fun i => 1700000000000 + Z.of_nat i;
     commit_ok := true |}.

Definition empty_store : Firestore := {| docs := ∅; requests := [] |}.

(** A header line and nothing under it. *)
Definition header_only_csv : jsstring := lit "NomeFantasia;Nota".

(** An import text of a header and two data lines; the rating of the
    second line is no number. *)
Definition sample_header : jsstring := lit "NomeFantasia;Nota;Setor".
Definition sample_lines : list jsstring := [lit "Acme; 5 ;Tech"; lit " Beta ;abc"].

(** Three projects, as the projects subscription delivers them. *)
Definition project (id name : string) : QueryDoc :=
  {| doc_id := lit id; doc_data := {[ lit "name" := VStr (lit name) ]} |}.

Definition alpha : QueryDoc := project "p1" "Alpha".
Definition beta : QueryDoc := project "p2" "Beta".
Definition gamma : QueryDoc := project "p3" "Gamma".

(** A session: sign in, receive two projects, pick the second one. *)
Definition session_with_beta_selected : Firestore * AppState :=
  run sample_appId (empty_store, initial)
      [ AuthStateChanged (Some sample_uid);
        ProjectsSnapshot [alpha; beta];
        PickProject (withId beta) ].

(** Another session: a user with one project signs out, a user without
    projects signs in, and then creates a first project. *)
Definition session_after_second_sign_in : Firestore * AppState :=
  run sample_appId (empty_store, initial)
      [ AuthStateChanged (Some sample_uid);
        ProjectsSnapshot [alpha];
        AuthStateChanged None;
        AuthStateChanged (Some (lit "u2"));
        ProjectsSnapshot [] ].

(** One master investor, already in the pipeline of project p1 with the
    entry [handleAdd] creates. *)
Definition acme : QueryDoc :=
  {| doc_id := lit "i1";
     doc_data := {[ k_nomeFantasia := VStr (lit "Acme") ]} |}.

Definition acme_entry_ref : path :=
  [lit "artifacts"; sample_appId; lit "users"; sample_uid; lit "projects";
   lit "p1"; lit "pipeline"; lit "i1"].

Definition store_with_acme : Firestore :=
  {| docs := {[ acme_entry_ref := defaultEntry ]}; requests := [] |}.

(** The text a template literal gives for a string, and for what is
    missing. *)
Definition sample_toString (x : option value) : jsstring :=
  match x with
  | Some (VStr s) => s
  | _ => lit "undefined"
  end.

Definition acme_ref : path :=
  [lit "artifacts"; sample_appId; lit "users"; sample_uid; lit "investors"; lit "i1"].

(** The investor base holds Acme and the pipeline of project p1 holds
    its entry. *)
Definition store_with_acme_master : Firestore :=
  {| docs := <[acme_ref := doc_data acme]> {[ acme_entry_ref := defaultEntry ]};
     requests := [] |}.

(** A document of another account. *)
Definition foreign_ref : path :=
  [lit "artifacts"; sample_appId; lit "users"; lit "u2"; lit "investors"; lit "i1"].

(** The user opens the project profile of the investor. *)
Definition profile_opened : Firestore * AppState :=
  let w1 := run sample_appId (store_with_acme, initial)
              [ AuthStateChanged (Some sample_uid);
                ProjectsSnapshot [alpha];
                InvestorsSnapshot [acme] ] in
  let w2 := step sample_appId w1 (pipelineSnapshotOf sample_appId w1) in
  step sample_appId w2 (SelectInvestor (hd ∅ (projectInvestors w2.2)) false).

(** A first interaction is submitted, the store notifies the pipeline
    subscription, and a second interaction is submitted in the same
    profile. *)
Definition first_interaction_added : Firestore * AppState :=
  let w := step sample_appId profile_opened
             (SubmitInteraction true 1000 (lit "Email") (lit "A")) in
  step sample_appId w (pipelineSnapshotOf sample_appId w).

Definition second_interaction_added : Firestore * AppState :=
  let w := step sample_appId first_interaction_added
             (SubmitInteraction true 2000 (lit "Email") (lit "B")) in
  step sample_appId w (pipelineSnapshotOf sample_appId w).

(** An interaction as the store holds it. *)
Definition storedInteraction (ms : Z) (interactionType interactionNotes : jsstring)
  : value :=
  toFirestore (newInteraction ms interactionType interactionNotes).

(** The history the store holds for a pipeline entry. *)
Definition storedHistory (fs : Firestore) (ref : path) : option value :=
  docs fs !! ref ≫= fun entry => entry !! k_historicoDeInteracoes.

(** ** JavaScript strings: trimming and splitting *)

Lemma blank_nil : blank [].
Proof. constructor. Qed.

Lemma blank_cons c s : is_ws c = true → blank s → blank (c :: s).
Proof. by constructor. Qed.

Lemma trimStart_blank s : blank s → trimStart s = [].
Proof.
  induction 1 as [|c r Hc _ IH]; [done|]. simpl. by rewrite Hc.
Qed.

Lemma trimStart_nil_blank s : trimStart s = [] → blank s.
Proof.
  induction s as [|c r IH]; [intros _; apply blank_nil|]. simpl.
  destruct (is_ws c) eqn:Hc; [|done]. intros H. apply blank_cons; [done | by apply IH].
Qed.

Lemma trimStart_decompose s :
  ∃ pre, blank pre ∧ s = pre ++ trimStart s.
Proof.
  induction s as [|c r (pre & Hpre & IH)].
  { exists []. split; [apply blank_nil | done]. }
  simpl. destruct (is_ws c) eqn:Hc.
  - exists (c :: pre). split; [by apply blank_cons|]. simpl. by f_equal.
  - exists []. split; [apply blank_nil | done].
Qed.

Lemma trimStart_head s c r : trimStart s = c :: r → is_ws c = false.
Proof.
  induction s as [|x s IH]; [done|]. simpl.
  destruct (is_ws x) eqn:Hx; [done|]. intros [= <- _]. done.
Qed.

Lemma trimStart_app_blank a b : blank a → trimStart (a ++ b) = trimStart b.
Proof.
  induction 1 as [|c r Hc _ IH]; [done|]. simpl. by rewrite Hc.
Qed.

Lemma trimStart_app a b : ¬ blank a → trimStart (a ++ b) = trimStart a ++ b.
Proof.
  induction a as [|c r IH]; intros Hnb.
  - destruct Hnb. apply blank_nil.
  - simpl. destruct (is_ws c) eqn:Hc; [|done].
    apply IH. intros Hr. apply Hnb. by apply blank_cons.
Qed.

Lemma blank_app a b : blank (a ++ b) ↔ blank a ∧ blank b.
Proof. apply Forall_app. Qed.

Lemma blank_rev s : blank (rev s) ↔ blank s.
Proof.
  unfold blank. split; intros H.
  - rewrite <- (rev_involutive s). by apply Forall_rev.
  - by apply Forall_rev.
Qed.

Lemma trimStart_not_blank s : ¬ blank s → ¬ blank (trimStart s).
Proof.
  intros Hnb Hb. apply Hnb. destruct (trimStart s) as [|c r] eqn:E.
  - by apply trimStart_nil_blank.
  - apply trimStart_head in E. inversion Hb; congruence.
Qed.

Lemma trimEnd_blank s : blank s → trimEnd s = [].
Proof.
  intros H. unfold trimEnd. rewrite trimStart_blank; [done|]. by apply blank_rev.
Qed.

Lemma trimEnd_app_blank a b : blank b → trimEnd (a ++ b) = trimEnd a.
Proof.
  intros H. unfold trimEnd. rewrite rev_app_distr, trimStart_app_blank; [done|].
  by apply blank_rev.
Qed.

Lemma trimEnd_app a b : ¬ blank b → trimEnd (a ++ b) = a ++ trimEnd b.
Proof.
  intros H. unfold trimEnd. rewrite rev_app_distr, trimStart_app.
  - by rewrite rev_app_distr, rev_involutive.
  - by rewrite blank_rev.
Qed.

Lemma trimEnd_decompose s : ∃ suf, blank suf ∧ s = trimEnd s ++ suf.
Proof.
  destruct (trimStart_decompose (rev s)) as (pre & Hpre & E).
  exists (rev pre). split; [by apply blank_rev|].
  unfold trimEnd. rewrite <- rev_app_distr, <- E. by rewrite rev_involutive.
Qed.

Lemma trimEnd_not_blank s : ¬ blank s → ¬ blank (trimEnd s).
Proof.
  intros Hnb. unfold trimEnd. rewrite blank_rev.
  apply trimStart_not_blank. by rewrite blank_rev.
Qed.

Lemma blank_dec s : {blank s} + {¬ blank s}.
Proof. unfold blank. apply Forall_dec. intros c. apply bool_eq_dec. Qed.

(** A text is blank exactly when [trim] leaves nothing. *)
Lemma trim_nil_iff s : trim s = [] ↔ blank s.
Proof.
  unfold trim. split.
  - intros H. destruct (blank_dec s) as [|Hnb]; [done|].
    apply trimStart_not_blank, trimEnd_not_blank in Hnb.
    rewrite H in Hnb. destruct Hnb. apply blank_nil.
  - intros H. by rewrite (trimStart_blank s H).
Qed.

Lemma trim_trimStart s : trim (trimStart s) = trim s.
Proof.
  unfold trim. f_equal.
  destruct (trimStart s) as [|c r] eqn:E; [done|].
  simpl. by rewrite (trimStart_head _ _ _ E).
Qed.

Lemma trim_trimEnd s : trim (trimEnd s) = trim s.
Proof.
  unfold trim. destruct (blank_dec s) as [Hb|Hnb].
  - by rewrite (trimEnd_blank s Hb), (trimStart_blank s Hb).
  - destruct (trimEnd_decompose s) as (suf & Hsuf & E).
    rewrite E at 2. rewrite trimStart_app by by apply trimEnd_not_blank.
    by rewrite trimEnd_app_blank.
Qed.

(** Trimming a text that begins and ends with lines that are not blank. *)
Lemma trim_app a b :
  ¬ blank a → ¬ blank b → trim (a ++ b) = trimStart a ++ trimEnd b.
Proof.
  intros Ha Hb. unfold trim. rewrite trimStart_app by done.
  by rewrite trimEnd_app.
Qed.

Lemma LF_is_ws : is_ws LF = true.
Proof. reflexivity. Qed.

Lemma split_nonempty sep s : split sep s ≠ [].
Proof.
  destruct s as [|c r]; [done|]. simpl.
  destruct (c =? sep)%N; [done|]. by destruct (split sep r).
Qed.

Lemma split_no_sep sep s : sep ∉ s → split sep s = [s].
Proof.
  induction s as [|c r IH]; [done|]. intros Hnotin.
  apply not_elem_of_cons in Hnotin as [Hne Hr]. simpl.
  destruct (N.eqb_spec c sep) as [->|_]; [done|]. by rewrite IH.
Qed.

Lemma split_app_sep sep a b :
  sep ∉ a → split sep (a ++ sep :: b) = a :: split sep b.
Proof.
  induction a as [|c r IH]; intros Hnotin.
  - simpl. by rewrite N.eqb_refl.
  - apply not_elem_of_cons in Hnotin as [Hne Hr]. simpl.
    destruct (N.eqb_spec c sep) as [->|_]; [done|]. by rewrite IH.
Qed.

Lemma split_joinLines ls :
  ls ≠ [] → Forall (fun l => LF ∉ l) ls → split LF (joinLines ls) = ls.
Proof.
  induction ls as [|l rest IH]; [done|]. intros _ Hall.
  apply Forall_cons in Hall as [Hl Hrest].
  destruct rest as [|l' rest'].
  - simpl. by apply split_no_sep.
  - change (joinLines (l :: l' :: rest')) with (l ++ LF :: joinLines (l' :: rest')).
    rewrite split_app_sep by done. f_equal. by apply IH.
Qed.

(** ** [parseInt] *)

Lemma digits_prefix_cons s c r :
  digits_prefix s = c :: r → ∃ rest, s = c :: rest ∧ is_digit c = true.
Proof.
  destruct s as [|x s]; [done|]. simpl.
  destruct (is_digit x) eqn:Hx; [|done]. intros [= <- _]. eauto.
Qed.

Lemma digit_not_ws d : is_digit d = true → is_ws d = false.
Proof.
  unfold is_digit, is_ws. intros H.
  apply andb_true_iff in H as [H1 H2].
  apply N.leb_le in H1. apply N.leb_le in H2.
  repeat match goal with
         | |- context [(?a <=? ?b)%N] => destruct (N.leb_spec a b)
         | |- context [(?a =? ?b)%N] => destruct (N.eqb_spec a b)
         end; simpl; try reflexivity; lia.
Qed.

Lemma digit_not_sign d :
  is_digit d = true → (d =? MINUS)%N = false ∧ (d =? PLUS)%N = false.
Proof.
  unfold is_digit, MINUS, PLUS. intros H.
  apply andb_true_iff in H as [H1 H2].
  apply N.leb_le in H1. apply N.leb_le in H2.
  split; apply N.eqb_neq; lia.
Qed.

Lemma parseInt10_numeric tok z : parseInt10 tok = Some z → numeric tok.
Proof.
  unfold parseInt10. intros H.
  destruct (trimStart_decompose tok) as (ws & Hws & E).
  destruct (trimStart tok) as [|c r] eqn:Et.
  { simpl in H. discriminate. }
  destruct (N.eqb_spec c MINUS) as [->|Hm].
  { destruct (digits_prefix r) as [|d ds] eqn:Ed; [discriminate|].
    apply digits_prefix_cons in Ed as (rest & -> & Hd).
    exists ws, [MINUS], d, rest. rewrite E. auto. }
  destruct (N.eqb_spec c PLUS) as [->|Hp].
  { destruct (digits_prefix r) as [|d ds] eqn:Ed; [discriminate|].
    apply digits_prefix_cons in Ed as (rest & -> & Hd).
    exists ws, [PLUS], d, rest. rewrite E. auto. }
  destruct (digits_prefix (c :: r)) as [|d ds] eqn:Ed; [discriminate|].
  apply digits_prefix_cons in Ed as (rest & [= <- <-] & Hd).
  exists ws, [], c, r. rewrite E. auto.
Qed.

Lemma numeric_parseInt10 tok : numeric tok → is_Some (parseInt10 tok).
Proof.
  intros (ws & sign & d & rest & Hws & Hsign & Hd & ->).
  unfold parseInt10. rewrite trimStart_app_blank by done.
  destruct (digit_not_sign d Hd) as [Hm Hp].
  destruct Hsign as [->|[->| ->]]; simpl; rewrite ?(digit_not_ws d Hd); simpl;
    rewrite ?Hm, ?Hp; simpl; rewrite Hd; eauto.
Qed.

(** A token that is not numeric is one [parseInt] fails on. *)
Lemma not_numeric_iff tok : ¬ numeric tok ↔ parseInt10 tok = None.
Proof.
  split.
  - intros Hn. destruct (parseInt10 tok) eqn:E; [|done].
    destruct Hn. by eapply parseInt10_numeric.
  - intros E Hn. apply numeric_parseInt10 in Hn as [z Hz]. congruence.
Qed.

(** ** The importer: one row *)

Ltac key_neq :=
  let H := fresh in intros H; vm_compute in H; discriminate H.

Lemma rowObject_snoc hs h values :
  rowObject (hs ++ [h]) values
  = setProp h (cell values (length hs)) (rowObject hs values).
Proof.
  unfold rowObject. rewrite imap_app, foldl_app. simpl.
  by rewrite Nat.add_0_r.
Qed.

Lemma cell_valueAt values i : cell values i = valueAt values i.
Proof.
  unfold cell, valueAt. destruct (values !! i) as [v|]; [|done]. simpl.
  by case_bool_decide; subst.
Qed.

Lemma setProp_lookup_ne h v o H :
  h ≠ H → setProp h v o !! H = o !! H.
Proof.
  intros Hne. unfold setProp. case_bool_decide; [done|].
  by rewrite lookup_insert_ne.
Qed.

Lemma setProp_lookup_eq H v o :
  H ≠ lit "__proto__" → setProp H v o !! H = Some v.
Proof.
  intros Hne. unfold setProp. rewrite bool_decide_eq_false_2 by done.
  by rewrite lookup_insert_eq.
Qed.

Lemma rowObject_lookup_missing hs values H :
  H ∉ hs → rowObject hs values !! H = None.
Proof.
  induction hs as [|h hs IH] using rev_ind; [done|]. intros Hnotin.
  apply not_elem_of_app in Hnotin as [Hhs Hh].
  apply not_elem_of_cons in Hh as [Hne _].
  rewrite rowObject_snoc, setProp_lookup_ne by done. by apply IH.
Qed.

Lemma rowObject_lookup_column hs values H i :
  H ≠ lit "__proto__" → is_column hs H i →
  rowObject hs values !! H = Some (valueAt values i).
Proof.
  intros Hproto. induction hs as [|h hs IH] using rev_ind; intros [Hi Hlast].
  { done. }
  rewrite rowObject_snoc.
  destruct (decide (i = length hs)) as [->|Hlen].
  - rewrite lookup_app_r, Nat.sub_diag in Hi by lia. injection Hi as ->.
    by rewrite setProp_lookup_eq, cell_valueAt.
  - assert (i < length hs)%nat as Hlt.
    { apply lookup_lt_Some in Hi. rewrite length_app in Hi. simpl in Hi. lia. }
    rewrite lookup_app_l in Hi by done.
    rewrite setProp_lookup_ne.
    + apply IH. split; [done|]. intros j Hj Hsome.
      apply (Hlast j Hj). rewrite lookup_app_l; [done|].
      by eapply lookup_lt_Some.
    + intros ->. apply (Hlast (length hs) Hlt).
      by rewrite lookup_app_r, Nat.sub_diag by lia.
Qed.

Lemma textFields_not_proto H k : (H, k) ∈ textFields → H ≠ lit "__proto__".
Proof.
  unfold textFields. intros Hin.
  repeat (apply elem_of_cons in Hin as [[= -> ->]|Hin]; [key_neq|]).
  by apply elem_of_nil in Hin.
Qed.

Lemma mappedData_text d now H k :
  (H, k) ∈ textFields → mappedData d now !! k = Some (orEmpty (d !! H)).
Proof.
  unfold textFields, mappedData. intros Hin.
  repeat (apply elem_of_cons in Hin as [[= -> ->]|Hin];
          [repeat first [rewrite lookup_insert_eq; reflexivity
                        | rewrite lookup_insert_ne by key_neq]|]).
  by apply elem_of_nil in Hin.
Qed.

Lemma mappedData_nota d now :
  mappedData d now !! k_nota = Some (notaOf (d !! h_Nota)).
Proof.
  unfold mappedData.
  repeat first [rewrite lookup_insert_eq; reflexivity
               | rewrite lookup_insert_ne by key_neq].
Qed.

Lemma mappedData_dataDeCriacao d now :
  mappedData d now !! k_dataDeCriacao = Some (VDate now).
Proof.
  unfold mappedData.
  repeat first [rewrite lookup_insert_eq; reflexivity
               | rewrite lookup_insert_ne by key_neq].
Qed.

Lemma notaOf_not_numeric tok : ¬ numeric tok → notaOf (Some tok) = VNum 0.
Proof.
  intros H. apply not_numeric_iff in H. unfold notaOf. simpl. by rewrite H.
Qed.

Lemma notaOf_undefined : notaOf None = VNum 0.
Proof. reflexivity. Qed.

(** C4. For every data row of a bulk import, whatever the header row: the
    rating ('Nota') is 0 when the token of its column cannot be parsed as
    an integer (it is not white space, an optional sign and a digit) and
    when there is no such column; every other recognized field holds the
    trimmed text of its column, and the empty string when the header or
    the value of the row is missing. *)
Theorem import_row_non_numeric_rating
    (headers : list jsstring) (line : jsstring) (now : Z) :
  let values := split SEMI (trim line) in
  let record := mappedData (rowObject headers values) now in
  (∀ i, is_column headers h_Nota i → ¬ numeric (valueAt values i) →
        record !! k_nota = Some (VNum 0))
  ∧ (h_Nota ∉ headers → record !! k_nota = Some (VNum 0))
  ∧ (∀ H k i, (H, k) ∈ textFields → is_column headers H i →
        record !! k = Some (VStr (valueAt values i)))
  ∧ (∀ H k, (H, k) ∈ textFields → H ∉ headers → record !! k = Some (VStr []))
  ∧ (∀ i, (length values ≤ i)%nat → valueAt values i = []).
Proof.
  intros values record. subst record. repeat split.
  - intros i Hcol Hnum. rewrite mappedData_nota.
    rewrite (rowObject_lookup_column _ _ _ i) by (done || key_neq).
    by rewrite notaOf_not_numeric.
  - intros Hmiss. rewrite mappedData_nota.
    by rewrite rowObject_lookup_missing.
  - intros H k i Hin Hcol. rewrite (mappedData_text _ _ H k Hin).
    rewrite (rowObject_lookup_column _ _ _ i); [done| |done].
    by eapply textFields_not_proto.
  - intros H k Hin Hmiss. rewrite (mappedData_text _ _ H k Hin).
    by rewrite rowObject_lookup_missing.
  - intros i Hi. unfold valueAt. by rewrite lookup_ge_None_2.
Qed.

(** ** The store: what a committed batch leaves *)

Lemma foldl_applyWrite_other d b p :
  (∀ w, w ∈ b → w_ref w ≠ p) → foldl applyWrite d b !! p = d !! p.
Proof.
  revert d. induction b as [|w b IH]; intros d Hne; [done|]. simpl.
  rewrite IH by (intros w' Hw'; apply Hne; by right).
  unfold applyWrite. rewrite lookup_insert_ne; [done|]. apply Hne. by left.
Qed.

Lemma foldl_applyWrite_NoDup d b i w :
  NoDup (w_ref <$> b) → b !! i = Some w →
  foldl applyWrite d b !! w_ref w = Some (toFirestore <$> w_data w).
Proof.
  revert d i. induction b as [|w0 b IH]; intros d i Hnd Hi; [done|].
  rewrite fmap_cons in Hnd. apply NoDup_cons in Hnd as [Hnotin Hnd].
  destruct i as [|i]; simpl in *.
  - injection Hi as ->. rewrite foldl_applyWrite_other.
    + unfold applyWrite. by rewrite lookup_insert_eq.
    + intros w' Hw' Heq. apply Hnotin. rewrite <- Heq.
      by apply list_elem_of_fmap_2.
  - by eapply IH.
Qed.

Lemma foldl_applyWrite_size d b :
  NoDup (w_ref <$> b) → (∀ w, w ∈ b → d !! w_ref w = None) →
  size (foldl applyWrite d b) = (size d + length b)%nat.
Proof.
  revert d. induction b as [|w0 b IH]; intros d Hnd Hnew; simpl; [lia|].
  rewrite fmap_cons in Hnd. apply NoDup_cons in Hnd as [Hnotin Hnd].
  rewrite IH; [|done|].
  - unfold applyWrite. rewrite map_size_insert_None; [lia|]. apply Hnew. by left.
  - intros w Hw. unfold applyWrite. rewrite lookup_insert_ne.
    + apply Hnew. by right.
    + intros Heq. apply Hnotin. rewrite Heq. by apply list_elem_of_fmap_2.
Qed.

(** A batch that writes the same data everywhere. *)
Lemma foldl_applyWrite_const d b data p :
  (∀ w, w ∈ b → w_data w = data) → p ∈ w_ref <$> b →
  foldl applyWrite d b !! p = Some (toFirestore <$> data).
Proof.
  revert d. induction b as [|w0 b IH]; intros d Hdata Hin.
  { by apply elem_of_nil in Hin. }
  simpl. destruct (decide (p ∈ w_ref <$> b)) as [Hb|Hb].
  - apply IH; [|done]. intros w Hw. apply Hdata. by right.
  - rewrite fmap_cons in Hin. apply elem_of_cons in Hin as [->|Hin]; [|done].
    rewrite foldl_applyWrite_other.
    + unfold applyWrite. rewrite lookup_insert_eq, Hdata; [done|by left].
    + intros w Hw Heq. apply Hb. rewrite <- Heq. by apply list_elem_of_fmap_2.
Qed.

(** ** The importer: the text *)

Lemma elem_of_trimStart c s : c ∈ trimStart s → c ∈ s.
Proof.
  destruct (trimStart_decompose s) as (pre & _ & E). intros H.
  rewrite E. apply elem_of_app. by right.
Qed.

Lemma elem_of_trimEnd c s : c ∈ trimEnd s → c ∈ s.
Proof.
  destruct (trimEnd_decompose s) as (suf & _ & E). intros H.
  rewrite E. apply elem_of_app. by left.
Qed.

Lemma joinLines_cons l l' rest :
  joinLines (l :: l' :: rest) = l ++ LF :: joinLines (l' :: rest).
Proof. reflexivity. Qed.

Lemma joinLines_not_blank ls :
  ls ≠ [] → Forall well_formed_line ls → ¬ blank (joinLines ls).
Proof.
  destruct ls as [|l rest]; [done|]. intros _ Hall.
  apply Forall_cons in Hall as [[_ Hl] _].
  destruct rest as [|l' rest]; [done|].
  rewrite joinLines_cons. intros Hb. apply blank_app in Hb as [Hb _]. done.
Qed.

(** Trimming the end of a text of well-formed lines touches its last line
    only, and leaves the trimmed lines what they were. *)
Lemma trimEnd_joinLines ls :
  ls ≠ [] → Forall well_formed_line ls →
  ∃ ls', trimEnd (joinLines ls) = joinLines ls' ∧ ls' ≠ [] ∧
         trim <$> ls' = trim <$> ls ∧ Forall (fun l => LF ∉ l) ls'.
Proof.
  induction ls as [|l rest IH]; [done|]. intros _ Hall.
  pose proof Hall as Hall'.
  apply Forall_cons in Hall as [[Hlf Hnb] Hrest].
  destruct rest as [|l' rest].
  - exists [trimEnd l]. simpl. repeat split; [done| |].
    + by rewrite trim_trimEnd.
    + constructor; [|constructor]. intros H. by apply Hlf, elem_of_trimEnd.
  - destruct IH as (ls' & E & Hne & Htrim & Hlfs); [done|done|].
    exists (l :: ls'). rewrite joinLines_cons.
    assert (¬ blank (joinLines (l' :: rest))) as Hnbj
      by by apply joinLines_not_blank.
    rewrite trimEnd_app.
    2:{ intros Hb. apply Forall_cons in Hb as [_ Hb]. done. }
    change (LF :: joinLines (l' :: rest)) with ([LF] ++ joinLines (l' :: rest)).
    rewrite trimEnd_app by done. rewrite E. simpl.
    destruct ls' as [|l0 ls'']; [done|]. repeat split; [done| |].
    + rewrite !fmap_cons in *. by f_equal.
    + by constructor.
Qed.

Lemma trim_idemp s : trim (trim s) = trim s.
Proof. unfold trim at 2. by rewrite trim_trimEnd, trim_trimStart. Qed.

Lemma elem_of_trim c s : c ∈ trim s → c ∈ s.
Proof. unfold trim. intros H. by apply elem_of_trimStart, elem_of_trimEnd. Qed.

(** The lines [handleImport] sees in a text of a header and well-formed
    lines: as many as were written, and the same once trimmed. *)
Lemma csvLines_joinLines header lines :
  well_formed_line header → Forall well_formed_line lines →
  ∃ header' lines',
    csvLines (joinLines (header :: lines)) = header' :: lines' ∧
    trim header' = trim header ∧ trim <$> lines' = trim <$> lines.
Proof.
  intros [Hlf Hnb] Hall. unfold csvLines. destruct lines as [|l rest].
  - exists (trim header), []. simpl. repeat split; [|apply trim_idemp].
    apply split_no_sep. intros H. by apply Hlf, elem_of_trim.
  - rewrite joinLines_cons.
    assert (¬ blank (joinLines (l :: rest))) as Hnbj
      by by apply joinLines_not_blank.
    rewrite trim_app; [|done|].
    2:{ intros Hb. apply Forall_cons in Hb as [_ Hb]. done. }
    change (LF :: joinLines (l :: rest)) with ([LF] ++ joinLines (l :: rest)).
    rewrite trimEnd_app by done.
    destruct (trimEnd_joinLines (l :: rest)) as (ls' & E & Hne & Htrim & Hlfs);
      [done|done|].
    exists (trimStart header), ls'. rewrite E. simpl. repeat split.
    + rewrite split_app_sep.
      * f_equal. by apply split_joinLines.
      * intros H. by apply Hlf, elem_of_trimStart.
    + apply trim_trimStart.
    + done.
Qed.

Lemma investorsToImport_joinLines header lines :
  well_formed_line header → Forall well_formed_line lines →
  investorsToImport (joinLines (header :: lines))
  = (fun line => rowObject (csvHeaders [header]) (split SEMI (trim line))) <$> lines.
Proof.
  intros Hh Hall. unfold investorsToImport.
  destruct (csvLines_joinLines header lines Hh Hall) as (h' & ls' & -> & Eh & Els).
  unfold csvHeaders. simpl. rewrite Eh.
  set (F := fun t => rowObject (trim <$> split SEMI (trim header)) (split SEMI t)).
  change ((F ∘ trim) <$> ls' = (F ∘ trim) <$> lines).
  by rewrite !list_fmap_compose, Els.
Qed.

Lemma joinLines_header_not_blank header lines :
  ¬ blank header → trim (joinLines (header :: lines)) ≠ [].
Proof.
  intros Hnb Hnil. apply trim_nil_iff in Hnil. apply Hnb.
  destruct lines as [|l rest]; [done|].
  rewrite joinLines_cons in Hnil. by apply blank_app in Hnil as [? _].
Qed.

(** ** The importer: the batch *)

Lemma hasDoubleSlash_no_slash s : SLASH ∉ s → hasDoubleSlash s = false.
Proof.
  induction s as [|c r IH]; [done|]. intros Hnotin.
  apply not_elem_of_cons in Hnotin as [Hne Hr]. simpl.
  destruct r as [|c' r']; [done|].
  rewrite IH by done. destruct (N.eqb_spec c SLASH); [congruence|done].
Qed.

Lemma pathComponent_valid s :
  valid_segment s → pathComponent (Some (VStr s)) = Some [s].
Proof.
  intros [Hne Hslash]. unfold pathComponent.
  rewrite hasDoubleSlash_no_slash, split_no_sep by done. simpl.
  by rewrite bool_decide_eq_false_2.
Qed.

Lemma resourcePath_valid segs :
  Forall valid_segment segs →
  resourcePath ((fun s => Some (VStr s)) <$> segs) = Some segs.
Proof.
  intros Hall. unfold resourcePath.
  assert (mapM pathComponent ((fun s => Some (VStr s)) <$> segs)
          = Some ((fun s => [s]) <$> segs)) as ->.
  { apply mapM_Some_2. induction Hall as [|s segs Hs _ IH]; [constructor|].
    rewrite !fmap_cons. constructor; [|done]. by apply pathComponent_valid. }
  simpl. f_equal. clear Hall. induction segs as [|s segs IH]; [done|].
  rewrite fmap_cons. simpl. by f_equal.
Qed.

Ltac not_in_literal :=
  let H := fresh in
  intros H; vm_compute in H;
  repeat (apply elem_of_cons in H as [H|H]; [discriminate H|]);
  by apply elem_of_nil in H.

Ltac valid_literal := split; [discriminate | not_in_literal].

Lemma investorsCollection_Some appId uid :
  valid_segment appId → valid_segment uid →
  investorsCollection appId (Some uid)
  = Some [lit "artifacts"; appId; lit "users"; uid; lit "investors"].
Proof.
  intros Ha Hu. unfold investorsCollection, collectionRef.
  change [str "artifacts"; Some (VStr appId); str "users"; VStr <$> Some uid;
          str "investors"]
    with ((fun s => Some (VStr s))
            <$> [lit "artifacts"; appId; lit "users"; uid; lit "investors"]).
  rewrite resourcePath_valid; [done|].
  repeat (constructor; [done || valid_literal|]). constructor.
Qed.

Section ImportBatch.
Variables (env : ImportEnv) (coll : path) (rows : list (gmap jsstring jsstring)).

Let batch : list write :=
  imap (fun i investorData =>
          Set_ (coll ++ [auto_id env i]) (mappedData investorData (clock env i)))
       rows.

Hypothesis fresh :
  ∀ i j, (i < length rows)%nat → (j < length rows)%nat →
         auto_id env i = auto_id env j → i = j.

Lemma importBatch_refs :
  w_ref <$> batch = (fun i => coll ++ [auto_id env i]) <$> seq 0 (length rows).
Proof.
  unfold batch. rewrite fmap_imap. rewrite <- imap_seq_0.
  by apply imap_ext.
Qed.

Lemma importBatch_NoDup : NoDup (w_ref <$> batch).
Proof.
  rewrite importBatch_refs. apply NoDup_fmap_2_strong; [|apply NoDup_seq].
  intros i j Hi Hj Heq. apply elem_of_seq in Hi, Hj.
  apply app_inv_head in Heq. injection Heq as Heq.
  apply fresh; [lia|lia|done].
Qed.

Lemma importBatch_lookup i row :
  rows !! i = Some row →
  batch !! i = Some (Set_ (coll ++ [auto_id env i]) (mappedData row (clock env i))).
Proof. intros H. unfold batch. by rewrite list_lookup_imap, H. Qed.

Lemma importBatch_elem w :
  w ∈ batch → ∃ i, (i < length rows)%nat ∧ w_ref w = coll ++ [auto_id env i].
Proof.
  intros Hw. apply list_elem_of_lookup in Hw as [i Hi].
  unfold batch in Hi. rewrite list_lookup_imap in Hi.
  destruct (rows !! i) as [row|] eqn:Hrow; [|done].
  injection Hi as <-. exists i. split; [|done]. by eapply lookup_lt_Some.
Qed.
End ImportBatch.

(** C5. A text of one header line and N well-formed data lines (no line
    blank), imported when [doc] hands out N identifiers that are distinct
    and unused: one batch of N writes is committed, and nothing else is
    sent; when the commit succeeds the store holds, under the i-th
    identifier, the record mapped from the i-th line with its creation
    time, every other document is what it was and there are exactly N
    documents more; when the commit fails no document changes. *)
Theorem import_creates_one_record_per_line
    (appId : jsstring) (env : ImportEnv) (uid header : jsstring)
    (lines : list jsstring) (fs : Firestore) :
  let coll := [lit "artifacts"; appId; lit "users"; uid; lit "investors"] in
  let record i line :=
    mappedData (rowObject (csvHeaders [header]) (split SEMI (trim line)))
               (clock env i) in
  let r := handleImport appId env (Some uid) (joinLines (header :: lines)) fs in
  valid_segment appId → valid_segment uid →
  well_formed_line header → Forall well_formed_line lines →
  (∀ i j, (i < length lines)%nat → (j < length lines)%nat →
          auto_id env i = auto_id env j → i = j) →
  (∀ i, (i < length lines)%nat → docs fs !! (coll ++ [auto_id env i]) = None) →
  (∃ batch, requests r.1 = requests fs ++ [Commit batch]
            ∧ length batch = length lines)
  ∧ (commit_ok env = true →
       (∀ i line, lines !! i = Some line →
          docs r.1 !! (coll ++ [auto_id env i]) = Some (toFirestore <$> record i line)
          ∧ (toFirestore <$> record i line) !! k_dataDeCriacao
            = Some (VTimestamp (clock env i)))
       ∧ (∀ p, (∀ i, (i < length lines)%nat → p ≠ coll ++ [auto_id env i]) →
               docs r.1 !! p = docs fs !! p)
       ∧ size (docs r.1) = (size (docs fs) + length lines)%nat
       ∧ r.2 = [ShowToast (msg_imported (length lines)) success; Close])
  ∧ (commit_ok env = false →
       docs r.1 = docs fs ∧ r.2 = [ShowToast msg_import_failed error]).
Proof.
  intros coll record r Ha Hu Hh Hall Hfresh Hnew. subst r.
  unfold handleImport.
  rewrite bool_decide_eq_false_2 by (apply joinLines_header_not_blank, Hh).
  rewrite investorsToImport_joinLines by done.
  rewrite investorsCollection_Some by done. fold coll.
  set (rows := _ <$> lines).
  assert (length rows = length lines) as Hlen by apply length_fmap.
  set (batch := imap _ rows).
  assert (NoDup (w_ref <$> batch)) as Hnd.
  { apply importBatch_NoDup. by rewrite Hlen. }
  unfold commit. destruct (commit_ok env); simpl.
  - split; [exists batch; split; [done|]; unfold batch; by rewrite length_imap|].
    split; [|done]. intros _. split; [|split; [|split]].
    + intros i line Hline.
      assert (rows !! i = Some (rowObject (csvHeaders [header]) (split SEMI (trim line))))
        as Hrow.
      { subst rows. by rewrite list_lookup_fmap, Hline. }
      apply (importBatch_lookup env coll) in Hrow.
      apply (foldl_applyWrite_NoDup (docs fs)) in Hrow; [|done].
      split; [done|].
      unfold record. by rewrite lookup_fmap, mappedData_dataDeCriacao.
    + intros p Hp. apply foldl_applyWrite_other. intros w Hw Heq.
      apply importBatch_elem in Hw as (i & Hi & Hw).
      apply (Hp i); [lia|]. transitivity (w_ref w); [done | exact Hw].
    + rewrite foldl_applyWrite_size; [unfold batch; by rewrite length_imap, Hlen|done|].
      intros w Hw. apply importBatch_elem in Hw as (i & Hi & ->).
      apply Hnew. lia.
    + by rewrite Hlen.
  - split; [exists batch; split; [done|]; unfold batch; by rewrite length_imap|].
    split; [done|]. by intros _.
Qed.

(** ** The importer: texts without data lines *)

Lemma investorsToImport_one_line csvData :
  LF ∉ trim csvData → investorsToImport csvData = [].
Proof.
  intros H. unfold investorsToImport, csvLines. by rewrite split_no_sep.
Qed.

(** C1, as the code has it. A text without data lines is a text whose
    trimmed form is a single line. When the text is blank the import is
    rejected before any parsing: an error asks for the data and nothing is
    sent to the store. When it is a header line alone the import is not
    rejected: an empty batch is committed, which leaves every document as
    it was, and the dialog reports 0 imported investors and closes (or
    reports a failure when the store refuses the commit). *)
Theorem import_without_data_lines
    (appId : jsstring) (env : ImportEnv) (uid csvData : jsstring) (fs : Firestore) :
  let r := handleImport appId env (Some uid) csvData fs in
  valid_segment appId → valid_segment uid → LF ∉ trim csvData →
  docs r.1 = docs fs
  ∧ (blank csvData → r = (fs, [ShowToast msg_paste error]))
  ∧ (¬ blank csvData →
       requests r.1 = requests fs ++ [Commit []]
       ∧ r.2 = if commit_ok env
               then [ShowToast (msg_imported 0) success; Close]
               else [ShowToast msg_import_failed error]).
Proof.
  intros r Ha Hu Hone. subst r. unfold handleImport.
  case_bool_decide as Htrim.
  - split; [done|]. split; [done|]. intros Hnb. destruct Hnb.
    by apply trim_nil_iff.
  - rewrite investorsToImport_one_line by done.
    rewrite investorsCollection_Some by done. unfold commit. simpl.
    destruct (commit_ok env); simpl.
    + split; [done|]. split; [|done]. intros Hb. destruct Htrim.
      by apply trim_nil_iff.
    + split; [done|]. split; [|done]. intros Hb. destruct Htrim.
      by apply trim_nil_iff.
Qed.

(** C1 fails as stated: a header line with no data line under it is not
    rejected. The empty batch is committed and the import is reported as a
    success. *)
Lemma header_only_import_not_rejected :
  let r := handleImport sample_appId sample_env (Some sample_uid)
             header_only_csv empty_store in
  (LF ∉ trim header_only_csv)
  ∧ ¬ rejected empty_store r
  ∧ requests r.1 = [Commit []]
  ∧ r.2 = [ShowToast (msg_imported 0) success; Close].
Proof.
  split; [|split; [|split]].
  - not_in_literal.
  - intros [_ [message H]]. vm_compute in H. discriminate H.
  - reflexivity.
  - reflexivity.
Qed.

Lemma import_without_data_lines_witness :
  let r := handleImport sample_appId sample_env (Some sample_uid)
             header_only_csv empty_store in
  docs r.1 = docs empty_store
  ∧ (blank header_only_csv → r = (empty_store, [ShowToast msg_paste error]))
  ∧ (¬ blank header_only_csv →
       requests r.1 = requests empty_store ++ [Commit []]
       ∧ r.2 = if commit_ok sample_env
               then [ShowToast (msg_imported 0) success; Close]
               else [ShowToast msg_import_failed error]).
Proof.
  apply (import_without_data_lines sample_appId sample_env sample_uid
           header_only_csv empty_store).
  - valid_literal.
  - valid_literal.
  - not_in_literal.
Defined.

(** ** Collections of the store *)

Lemma NoDup_omap {A B} (f : A → option B) (l : list A) :
  (∀ x y z, x ∈ l → y ∈ l → f x = Some z → f y = Some z → x = y) →
  NoDup l → NoDup (omap f l).
Proof.
  intros Hinj. induction 1 as [|x l Hx Hnd IH]; simpl; [constructor|].
  assert (NoDup (omap f l)) as IH'.
  { apply IH. intros a b z Ha Hb. apply Hinj; by right. }
  destruct (f x) as [z|] eqn:Hfx; [|done]. constructor; [|done].
  intros Hz. apply list_elem_of_omap in Hz as (y & Hy & Hfy).
  assert (x = y) as -> by (eapply Hinj; [by left|by right|done|done]). done.
Qed.

Lemma collectionIds_omap d coll :
  collectionIds d coll
  = omap (fun p => match last p with
                   | Some name => if bool_decide (p = coll ++ [name])
                                  then Some name else None
                   | None => None
                   end) (map_to_list d).*1.
Proof.
  unfold collectionIds, collectionDocs.
  induction (map_to_list d) as [|[p data] l IH]; [done|]. simpl.
  destruct (last p) as [name|]; [|done].
  case_bool_decide; [|done]. simpl. by f_equal.
Qed.

(** A collection holds at most one document per identifier. *)
Lemma NoDup_collectionIds d coll : NoDup (collectionIds d coll).
Proof.
  rewrite collectionIds_omap. apply NoDup_omap; [|apply NoDup_fst_map_to_list].
  intros p q name _ _ Hp Hq.
  destruct (last p) as [n1|]; [|done]. destruct (last q) as [n2|]; [|done].
  repeat case_bool_decide; try done. congruence.
Qed.

Lemma elem_of_collectionIds d coll name :
  name ∈ collectionIds d coll ↔ is_Some (d !! (coll ++ [name])).
Proof.
  rewrite collectionIds_omap, list_elem_of_omap. split.
  - intros (p & Hp & Hlast).
    destruct (last p) as [n|]; [|done]. case_bool_decide; [|done].
    injection Hlast as ->. subst p.
    apply list_elem_of_fmap in Hp as ([q data] & -> & Hin).
    apply elem_of_map_to_list in Hin. by exists data.
  - intros [data Hdata]. exists (coll ++ [name]). split.
    + apply list_elem_of_fmap. exists (coll ++ [name], data). split; [done|].
      by apply elem_of_map_to_list.
    + rewrite last_snoc. by rewrite bool_decide_eq_true_2.
Qed.

(** ** Add to pipeline *)

Lemma pipelineCollection_Some appId uid pid :
  valid_segment appId → valid_segment uid → valid_segment pid →
  pipelineCollection appId (Some uid) (Some (VStr pid))
  = Some [lit "artifacts"; appId; lit "users"; uid; lit "projects"; pid;
          lit "pipeline"].
Proof.
  intros Ha Hu Hp. unfold pipelineCollection, collectionRef.
  change [str "artifacts"; Some (VStr appId); str "users"; VStr <$> Some uid;
          str "projects"; Some (VStr pid); str "pipeline"]
    with ((fun s => Some (VStr s))
            <$> [lit "artifacts"; appId; lit "users"; uid; lit "projects"; pid;
                 lit "pipeline"]).
  rewrite resourcePath_valid; [done|].
  repeat (constructor; [done || valid_literal|]). constructor.
Qed.

Lemma pipelineRef_Some appId uid pid i :
  valid_segment appId → valid_segment uid → valid_segment pid → valid_segment i →
  pipelineRef appId (Some uid) (Some (VStr pid)) (Some (VStr i))
  = Some ([lit "artifacts"; appId; lit "users"; uid; lit "projects"; pid;
           lit "pipeline"] ++ [i]).
Proof.
  intros Ha Hu Hp Hi. unfold pipelineRef, docRef.
  change [str "artifacts"; Some (VStr appId); str "users"; VStr <$> Some uid;
          str "projects"; Some (VStr pid); str "pipeline"; Some (VStr i)]
    with ((fun s => Some (VStr s))
            <$> [lit "artifacts"; appId; lit "users"; uid; lit "projects"; pid;
                 lit "pipeline"; i]).
  rewrite resourcePath_valid; [done|].
  repeat (constructor; [done || valid_literal|]). constructor.
Qed.

Lemma mapM_pipelineRef appId uid pid ids :
  valid_segment appId → valid_segment uid → valid_segment pid →
  Forall valid_segment ids →
  mapM (pipelineRef appId (Some uid) (Some (VStr pid)))
       ((fun i => Some (VStr i)) <$> ids)
  = Some ((fun i => [lit "artifacts"; appId; lit "users"; uid; lit "projects";
                     pid; lit "pipeline"] ++ [i]) <$> ids).
Proof.
  intros Ha Hu Hp Hids. apply mapM_Some_2.
  induction Hids as [|i ids Hi _ IH]; [constructor|].
  rewrite !fmap_cons. constructor; [|done]. by apply pipelineRef_Some.
Qed.

Lemma defaultEntry_stored : toFirestore <$> defaultEntry = defaultEntry.
Proof. by vm_compute. Qed.

Lemma defaultEntry_fields :
  defaultEntry !! k_notaDePrioridade = Some (VNum 3)
  ∧ defaultEntry !! k_status = Some (VStr s_NaoContatado)
  ∧ defaultEntry !! k_historicoDeInteracoes = Some (VArr []).
Proof. by vm_compute. Qed.

Lemma handleAdd_nothing_selected appId ok userId selectedProjectId fs :
  handleAdd appId ok userId selectedProjectId [] fs = (fs, []).
Proof. reflexivity. Qed.

Lemma foldl_applyWrite_twice d b data :
  (∀ w, w ∈ b → w_data w = data) →
  foldl applyWrite (foldl applyWrite d b) b = foldl applyWrite d b.
Proof.
  intros Hdata. apply map_eq. intros p.
  destruct (decide (p ∈ w_ref <$> b)) as [Hin|Hout].
  - by rewrite !(foldl_applyWrite_const _ b data p).
  - rewrite foldl_applyWrite_other; [done|].
    intros w Hw Heq. apply Hout. rewrite <- Heq. by apply list_elem_of_fmap_2.
Qed.

(** C6. Adding a chosen, non-empty set of master-investor identifiers to
    the selected project sends one batch with one write per identifier,
    each to the document named by the identifier and each with priority 3,
    status 'Nao Contatado' and an empty history. When the commit succeeds
    every chosen identifier has exactly that entry, whatever it had
    before, the other documents are untouched, and the pipeline holds the
    identifiers it held together with the chosen ones, each once; adding
    the same set again changes nothing. When the commit fails no document
    changes. *)
Theorem add_to_pipeline_default_entries
    (appId : jsstring) (ok : bool) (uid pid : jsstring) (ids : list jsstring)
    (fs : Firestore) :
  let coll := [lit "artifacts"; appId; lit "users"; uid; lit "projects"; pid;
               lit "pipeline"] in
  let selected := (fun i => Some (VStr i)) <$> ids in
  let r := handleAdd appId ok (Some uid) (Some (VStr pid)) selected fs in
  valid_segment appId → valid_segment uid → valid_segment pid →
  Forall valid_segment ids → ids ≠ [] →
  (∃ batch, requests r.1 = requests fs ++ [Commit batch]
            ∧ w_ref <$> batch = (fun i => coll ++ [i]) <$> ids
            ∧ Forall (fun w => w_data w = defaultEntry) batch)
  ∧ (defaultEntry !! k_notaDePrioridade = Some (VNum 3)
     ∧ defaultEntry !! k_status = Some (VStr s_NaoContatado)
     ∧ defaultEntry !! k_historicoDeInteracoes = Some (VArr []))
  ∧ (ok = true →
       (∀ i, i ∈ ids → docs r.1 !! (coll ++ [i]) = Some defaultEntry)
       ∧ (∀ p, (∀ i, i ∈ ids → p ≠ coll ++ [i]) → docs r.1 !! p = docs fs !! p)
       ∧ (∀ i, i ∈ collectionIds (docs r.1) coll
               ↔ i ∈ ids ∨ i ∈ collectionIds (docs fs) coll)
       ∧ NoDup (collectionIds (docs r.1) coll)
       ∧ docs (handleAdd appId ok (Some uid) (Some (VStr pid)) selected r.1).1
         = docs r.1)
  ∧ (ok = false → docs r.1 = docs fs).
Proof.
  intros coll selected r Ha Hu Hp Hids Hne.
  assert (handleAdd_eq : ∀ fs0,
    handleAdd appId ok (Some uid) (Some (VStr pid)) selected fs0
    = let batch := (fun ref => Set_ ref defaultEntry) <$> ((fun i => coll ++ [i]) <$> ids) in
      match commit ok batch fs0 with
      | (fs', true) => (fs', [ShowToast (msg_added (length selected)) success; Close])
      | (fs', false) => (fs', [ShowToast msg_add_failed error])
      end).
  { intros fs0. unfold handleAdd.
    destruct ids as [|i0 ids']; [done|].
    change (length selected =? 0)%nat with false. cbv iota.
    subst selected. by rewrite mapM_pipelineRef. }
  subst r. rewrite handleAdd_eq. simpl.
  set (batch := (fun ref => Set_ ref defaultEntry) <$> ((fun i => coll ++ [i]) <$> ids)).
  assert (w_ref <$> batch = (fun i => coll ++ [i]) <$> ids) as Hrefs.
  { unfold batch. rewrite <- list_fmap_compose. apply list_fmap_id. }
  assert (∀ w, w ∈ batch → w_data w = defaultEntry) as Hdata.
  { intros w Hw. apply list_elem_of_fmap in Hw as (ref & -> & _). done. }
  assert (∀ d i, i ∈ ids → foldl applyWrite d batch !! (coll ++ [i]) = Some defaultEntry)
    as Hentry.
  { intros d i Hi. rewrite (foldl_applyWrite_const _ _ defaultEntry), defaultEntry_stored;
      [done|done|]. rewrite Hrefs. by apply (list_elem_of_fmap_2 (fun i => coll ++ [i])). }
  assert (∀ d p, (∀ i, i ∈ ids → p ≠ coll ++ [i]) →
                 foldl applyWrite d batch !! p = d !! p) as Hother.
  { intros d p Hpne. apply foldl_applyWrite_other. intros w Hw Heq.
    assert (p ∈ w_ref <$> batch) as Hin
      by (rewrite <- Heq; by apply list_elem_of_fmap_2).
    rewrite Hrefs in Hin. apply list_elem_of_fmap in Hin as (i & -> & Hi).
    by apply (Hpne i). }
  split; [|split; [apply defaultEntry_fields|]].
  { exists batch. unfold commit. destruct ok; simpl; (split; [done|]);
      (split; [done|]); by apply Forall_forall. }
  unfold commit. destruct ok; simpl.
  - split; [|done]. intros _. split; [by apply Hentry|]. split; [by apply Hother|].
    split; [|split; [apply NoDup_collectionIds|]].
    + intros i. rewrite !elem_of_collectionIds.
      destruct (decide (i ∈ ids)) as [Hi|Hi].
      * rewrite Hentry by done. split; [by left|by eauto].
      * rewrite Hother.
        -- split; [by right|]. by intros [?|?].
        -- intros j Hj Heq. apply app_inv_head in Heq. injection Heq as ->. done.
    + rewrite handleAdd_eq. unfold commit. simpl.
      by apply foldl_applyWrite_twice with (data := defaultEntry).
  - split; [done|]. by intros _.
Qed.

(** ** The Pipeline Joiner *)

Lemma strict_eq_str_true x s : strict_eq_str x s = true ↔ x = Some (VStr s).
Proof.
  unfold strict_eq_str. destruct x as [[| | |s'| | | |]|]; try (split; discriminate).
  rewrite bool_decide_eq_true. split; [by intros ->|by intros [= ->]].
Qed.

Lemma findMaster_Some masters id m :
  findMaster masters id = Some m → m ∈ masters ∧ m !! k_id = Some (VStr id).
Proof.
  unfold findMaster. intros H. apply find_some in H as [Hin Heq].
  split; [by apply list_elem_of_In|by apply strict_eq_str_true].
Qed.

Lemma findMaster_has_master masters d :
  has_master masters d ↔ is_Some (findMaster masters (doc_id d)).
Proof.
  unfold has_master. rewrite Exists_exists. split.
  - intros (m & Hin & Hid).
    destruct (findMaster masters (doc_id d)) as [m'|] eqn:E; [by eexists|].
    unfold findMaster in E. apply list_elem_of_In in Hin.
    apply (find_none _ _ E m) in Hin.
    apply strict_eq_str_true in Hid. congruence.
  - intros [m Hm]. apply findMaster_Some in Hm as [Hin Hid]. eauto.
Qed.

Lemma investorsInProject_cons masters d docs :
  investorsInProject masters (d :: docs)
  = match findMaster masters (doc_id d) with
    | Some m => mergeEntry d m :: investorsInProject masters docs
    | None => investorsInProject masters docs
    end.
Proof.
  unfold investorsInProject. rewrite fmap_cons. simpl.
  by destruct (findMaster masters (doc_id d)).
Qed.

(** C2. The derived list of the Pipeline Joiner is, in order, one merged
    record for each pipeline entry whose identifier is the identifier of
    some master investor, merged with such a master; the entries without
    master leave no trace. The join is a total function: no input makes
    it fail. *)
Theorem pipeline_join_keeps_entries_with_master
    (masters : list obj) (pipelineDocs : list QueryDoc) :
  Forall2 (fun d r => ∃ m, m ∈ masters ∧ m !! k_id = Some (VStr (doc_id d))
                           ∧ r = mergeEntry d m)
          (filter (has_master masters) pipelineDocs)
          (investorsInProject masters pipelineDocs).
Proof.
  induction pipelineDocs as [|d docs IH]; [constructor|].
  rewrite investorsInProject_cons.
  destruct (decide (has_master masters d)) as [Hm|Hm].
  - rewrite filter_cons_True by done.
    apply findMaster_has_master in Hm as Hfind. destruct Hfind as [m Hfind].
    rewrite Hfind. constructor; [|done].
    apply findMaster_Some in Hfind as [Hin Hid]. eauto.
  - rewrite filter_cons_False by done.
    destruct (findMaster masters (doc_id d)) as [m|] eqn:Hfind; [|done].
    destruct Hm. apply findMaster_has_master. by eexists.
Qed.

Lemma mergeEntry_lookup d m k :
  mergeEntry d m !! k
  = match doc_data d !! k with
    | Some v => Some v
    | None => match m !! k with
              | Some v => Some v
              | None => if decide (k = k_id) then Some (VStr (doc_id d)) else None
              end
    end.
Proof.
  unfold mergeEntry. rewrite !lookup_union.
  destruct (doc_data d !! k) as [v|]; simpl.
  { by destruct (m !! k), ({[k_id := VStr (doc_id d)]} !! k). }
  destruct (m !! k) as [v|]; simpl.
  { by destruct ({[k_id := VStr (doc_id d)]} !! k). }
  case_decide as Hk.
  - subst k. by rewrite lookup_singleton_eq.
  - by rewrite lookup_singleton_ne.
Qed.

Lemma elem_of_investorsInProject masters docs d m :
  d ∈ docs → findMaster masters (doc_id d) = Some m →
  mergeEntry d m ∈ investorsInProject masters docs.
Proof.
  intros Hd Hfind. unfold investorsInProject.
  apply list_elem_of_omap. exists (Some (mergeEntry d m)). split; [|done].
  apply list_elem_of_fmap. exists d. by rewrite Hfind.
Qed.

(** C3. A pipeline entry whose master investor exists gives a merged
    record in the derived list whose fields are the fields of the master
    and of the entry together; a field the entry has holds the value of
    the entry, also when the master has a field of that name, and every
    other field holds the value of the master. *)
Theorem merged_record_pipeline_fields_win
    (masters : list obj) (pipelineDocs : list QueryDoc) (d : QueryDoc) :
  d ∈ pipelineDocs → has_master masters d →
  ∃ m r, m ∈ masters ∧ m !! k_id = Some (VStr (doc_id d))
         ∧ r = mergeEntry d m ∧ r ∈ investorsInProject masters pipelineDocs
         ∧ dom r = dom m ∪ dom (doc_data d)
         ∧ (∀ k v, doc_data d !! k = Some v → r !! k = Some v)
         ∧ (∀ k, doc_data d !! k = None → r !! k = m !! k).
Proof.
  intros Hd Hm. apply findMaster_has_master in Hm as [m Hfind].
  pose proof (findMaster_Some _ _ _ Hfind) as [Hin Hid].
  exists m, (mergeEntry d m). split; [done|]. split; [done|]. split; [done|].
  split; [by apply elem_of_investorsInProject|]. split; [|split].
  - apply set_eq. intros k. rewrite elem_of_union, !elem_of_dom.
    rewrite mergeEntry_lookup. unfold is_Some.
    destruct (doc_data d !! k) as [v|] eqn:Ed.
    { split; [intros _; right; eauto | intros _; eauto]. }
    destruct (m !! k) as [v|] eqn:Em.
    { split; [intros _; left; eauto | intros _; eauto]. }
    case_decide; [congruence|].
    split; [intros [? ?]; done | intros [[? ?]|[? ?]]; done].
  - intros k v Hk. by rewrite mergeEntry_lookup, Hk.
  - intros k Hk. rewrite mergeEntry_lookup, Hk.
    destruct (m !! k) as [v|] eqn:Em; [done|].
    case_decide; [congruence|done].
Qed.

(** ** The candidates of the add-to-pipeline dialog *)

Lemma no_same_identifier (x : option value) (projectInvs : list obj) :
  existsb (sameValueZero x) ((fun pi => pi !! k_id) <$> projectInvs) = false
  ↔ ∀ pi, pi ∈ projectInvs → sameValueZero x (pi !! k_id) = false.
Proof.
  split.
  - intros Hex pi Hpi. destruct (sameValueZero _ _) eqn:E; [|done].
    rewrite <- Hex. symmetry. apply existsb_exists. exists (pi !! k_id).
    split; [|done]. apply list_elem_of_In.
    by apply (list_elem_of_fmap_2 (fun pi => pi !! k_id)).
  - intros Hall. destruct (existsb _ _) eqn:E; [|done].
    apply existsb_exists in E as (y & Hy & Hsame).
    apply list_elem_of_In, list_elem_of_fmap in Hy as (pi & -> & Hpi).
    rewrite Hall in Hsame; done.
Qed.

(** C7. The candidates are exactly the master investors whose identifier
    is the identifier of no project investor and that pass both filters:
    a filter that is set must equal the tag of the investor, an empty
    filter asks nothing. *)
Theorem candidates_are_masters_outside_pipeline
    (masters projectInvs : list obj) (classificationFilter sectorFilter : jsstring)
    (mi : obj) :
  mi ∈ availableInvestors masters projectInvs classificationFilter sectorFilter
  ↔ mi ∈ masters
    ∧ (∀ pi, pi ∈ projectInvs → sameValueZero (mi !! k_id) (pi !! k_id) = false)
    ∧ (classificationFilter = [] ∨ mi !! k_classificacao = Some (VStr classificationFilter))
    ∧ (sectorFilter = [] ∨ mi !! k_setor = Some (VStr sectorFilter)).
Proof.
  unfold availableInvestors. rewrite list_elem_of_In, filter_In, <- list_elem_of_In.
  rewrite !andb_true_iff, negb_true_iff, !orb_true_iff, !bool_decide_eq_true,
    !strict_eq_str_true.
  rewrite no_same_identifier. tauto.
Qed.

Lemma sameValueZero_str x s :
  sameValueZero x (Some (VStr s)) = true ↔ x = Some (VStr s).
Proof.
  unfold sameValueZero. destruct x as [[| | |s'| | | |]|]; try (split; discriminate).
  rewrite bool_decide_eq_true. split; [by intros ->|by intros [= ->]].
Qed.

(** The candidates, against the pipeline itself: when the dialog is given
    the derived list of the current master list and the pipeline entries
    carry no field named [id], a master investor is offered exactly when
    no pipeline entry has its identifier and the filters pass. *)
Lemma candidates_outside_pipeline_docs
    (masters : list obj) (pipelineDocs : list QueryDoc)
    (classificationFilter sectorFilter : jsstring) (mi : obj) :
  Forall (fun d => doc_data d !! k_id = None) pipelineDocs →
  mi ∈ availableInvestors masters (investorsInProject masters pipelineDocs)
         classificationFilter sectorFilter
  ↔ mi ∈ masters
    ∧ (∀ d, d ∈ pipelineDocs → mi !! k_id ≠ Some (VStr (doc_id d)))
    ∧ (classificationFilter = [] ∨ mi !! k_classificacao = Some (VStr classificationFilter))
    ∧ (sectorFilter = [] ∨ mi !! k_setor = Some (VStr sectorFilter)).
Proof.
  intros Hnoid.
  unfold availableInvestors. rewrite list_elem_of_In, filter_In, <- list_elem_of_In.
  rewrite !andb_true_iff, negb_true_iff, !orb_true_iff, !bool_decide_eq_true,
    !strict_eq_str_true, no_same_identifier.
  fold (investorsInProject masters pipelineDocs).
  rewrite Forall_forall in Hnoid.
  assert (∀ d m, d ∈ pipelineDocs → m !! k_id = Some (VStr (doc_id d)) →
                 mergeEntry d m !! k_id = Some (VStr (doc_id d))) as Hid.
  { intros d m Hd Hm. by rewrite mergeEntry_lookup, (Hnoid d Hd), Hm. }
  split; [intros (Hin & (Habsent & Hc) & Hs)|intros (Hin & Habsent & Hc & Hs)];
    (split; [done|]); [split; [|done]|split; [split; [|done]|done]].
  - intros d Hd Heq.
    assert (has_master masters d) as Hm by (apply Exists_exists; eauto).
    apply findMaster_has_master in Hm as [m Hfind].
    pose proof (elem_of_investorsInProject _ _ _ _ Hd Hfind) as Hpi.
    apply Habsent in Hpi. apply findMaster_Some in Hfind as [_ Hmid].
    rewrite (Hid d m Hd Hmid) in Hpi.
    apply sameValueZero_str in Heq. congruence.
  - intros pi Hpi. unfold investorsInProject in Hpi.
    apply list_elem_of_omap in Hpi as (o & Ho & Hsome). simpl in Hsome. subst o.
    apply list_elem_of_fmap in Ho as (d & Heq & Hd).
    destruct (findMaster masters (doc_id d)) as [m|] eqn:Hfind; [|done].
    injection Heq as ->. apply findMaster_Some in Hfind as [_ Hmid].
    rewrite (Hid d m Hd Hmid).
    destruct (sameValueZero _ _) eqn:E; [|done].
    apply sameValueZero_str in E. by destruct (Habsent d Hd).
Qed.

(** ** The interaction log *)

Lemma interaction_guard_closed
    (interactionNotes : jsstring) (userId : option jsstring)
    (selectedProjectId : option value) (isMasterProfile : bool) :
  blank interactionNotes ∨ userId = None ∨ selectedProjectId = None
    ∨ isMasterProfile = true →
  bool_decide (trim interactionNotes = [])
  || negb (truthy_opt (VStr <$> userId))
  || negb (truthy_opt selectedProjectId)
  || isMasterProfile = true.
Proof.
  intros [Hb|[->|[->| ->]]].
  - apply trim_nil_iff in Hb. by rewrite bool_decide_eq_true_2.
  - simpl. by rewrite orb_true_r.
  - simpl. by rewrite orb_true_r.
  - by rewrite orb_true_r.
Qed.

(** C10. Submitting the interaction form with notes that are empty or
    white space only, or without a signed-in user, or without a selected
    project, or on a profile opened from the master list, returns at the
    guard: nothing is sent to the store, no document changes and nothing
    is shown. *)
Theorem add_interaction_guard
    (appId : jsstring) (ok : bool) (now : Z) (userId : option jsstring)
    (selectedProjectId : option value) (investor : obj) (isMasterProfile : bool)
    (interactionType interactionNotes : jsstring) (fs : Firestore) :
  blank interactionNotes ∨ userId = None ∨ selectedProjectId = None
    ∨ isMasterProfile = true →
  handleAddInteraction appId ok now userId selectedProjectId investor
    isMasterProfile interactionType interactionNotes fs = (fs, []).
Proof.
  intros H. unfold handleAddInteraction.
  by rewrite (interaction_guard_closed _ _ _ _ H).
Qed.

(** The same for the application as a whole: the submission leaves the
    store and the state of the application as they were. *)
Lemma submit_interaction_guard appId ok now interactionType interactionNotes fs st :
  blank interactionNotes ∨ userId st = None ∨ selectedProjectId st = None
    ∨ isMasterProfile st = true →
  step appId (fs, st) (SubmitInteraction ok now interactionType interactionNotes)
  = (fs, st).
Proof.
  intros H. simpl. destruct (selectedInvestor st) as [investor|]; [|done].
  unfold handleAddInteraction. by rewrite (interaction_guard_closed _ _ _ _ H).
Qed.

Lemma withDate_stored item :
  stored_item item → ∃ item', withDate item = Some item' ∧ toFirestore item' = item.
Proof.
  intros (fields & ms & -> & Hdata & Hstored). simpl. rewrite Hdata.
  eexists. split; [done|]. simpl. f_equal.
  rewrite fmap_insert, Hstored. simpl. by apply insert_id.
Qed.

Lemma mapM_withDate_stored items :
  Forall stored_item items →
  ∃ existing, mapM withDate items = Some existing ∧ toFirestore <$> existing = items.
Proof.
  induction 1 as [|item items Hitem _ (existing & Hmap & Hback)].
  - by exists [].
  - destruct (withDate_stored item Hitem) as (item' & Hwd & Hit).
    exists (item' :: existing). split.
    + apply mapM_Some_2. constructor; [done|]. by apply mapM_Some_1.
    + rewrite fmap_cons. by f_equal.
Qed.

Lemma updateDoc_existing ref fields fs old :
  docs fs !! ref = Some old →
  updateDoc true ref fields fs
  = ({| docs := <[ref := (toFirestore <$> fields) ∪ old]> (docs fs);
        requests := requests fs ++ [Update ref fields] |}, true).
Proof. intros H. unfold updateDoc. by rewrite H. Qed.

(** What one submission writes: the history of the investor object the
    profile was opened with, followed by the new interaction. The history
    the store holds at that moment plays no part. *)
Lemma written_history_is_profile_history_plus_new
    (appId : jsstring) (now : Z) (uid pid iid : jsstring) (investor entry : obj)
    (interactionType interactionNotes : jsstring) (items : list value)
    (fs : Firestore) :
  let ref := [lit "artifacts"; appId; lit "users"; uid; lit "projects"; pid;
              lit "pipeline"] ++ [iid] in
  let r := handleAddInteraction appId true now (Some uid) (Some (VStr pid)) investor
             false interactionType interactionNotes fs in
  valid_segment appId → valid_segment uid → valid_segment pid → valid_segment iid →
  ¬ blank interactionNotes →
  investor !! k_id = Some (VStr iid) →
  investor !! k_historicoDeInteracoes = Some (VArr items) →
  Forall stored_item items →
  docs fs !! ref = Some entry →
  docs r.1 !! ref
  = Some (<[k_historicoDeInteracoes :=
              VArr (items ++ [storedInteraction now interactionType interactionNotes])]>
          entry)
  ∧ r.2 = [ClearNotes; ShowToast msg_interaction_added success].
Proof.
  intros ref r Ha Hu Hp Hi Hnotes Hid Hhist Hitems Hentry. subst r ref.
  unfold handleAddInteraction.
  rewrite bool_decide_eq_false_2 by (by rewrite trim_nil_iff).
  assert (truthy_opt (VStr <$> Some uid) = true) as ->.
  { simpl. rewrite bool_decide_eq_false_2; [done|apply Hu]. }
  assert (truthy_opt (Some (VStr pid)) = true) as ->.
  { simpl. rewrite bool_decide_eq_false_2; [done|apply Hp]. }
  cbn [negb orb].
  unfold existingInteractions. rewrite Hhist. cbn [truthy].
  destruct (mapM_withDate_stored items Hitems) as (existing & -> & Hback).
  rewrite Hid, pipelineRef_Some by done.
  rewrite (updateDoc_existing _ _ _ _ Hentry). cbn [fst snd docs].
  split; [|done]. rewrite lookup_insert_eq. f_equal.
  rewrite map_fmap_singleton, <- insert_union_singleton_l. f_equal.
  cbn [toFirestore]. by rewrite fmap_app, Hback.
Qed.

(** C9, at the failing input. The profile of an investor without history
    is opened and two interactions are submitted one after the other.
    After the first the store holds it, but the profile, which still has
    the investor object it was opened with, shows no history; after the
    second the store holds the second interaction alone: the first one is
    gone. *)
Theorem second_interaction_drops_first :
  storedHistory first_interaction_added.1 acme_entry_ref
  = Some (VArr [storedInteraction 1000 (lit "Email") (lit "A")])
  ∧ from_option displayedHistory [] (selectedInvestor first_interaction_added.2) = []
  ∧ storedHistory second_interaction_added.1 acme_entry_ref
    = Some (VArr [storedInteraction 2000 (lit "Email") (lit "B")]).
Proof. split; [|split]; by vm_compute. Qed.

(** ** The projects subscription *)

(** The callback with a closure that holds no selection selects the first
    project of every snapshot that is not empty, whatever is selected. *)
Lemma onProjectsSnapshot_stale d snap st :
  selectedProjectId (onProjectsSnapshot None (d :: snap) st) = withId d !! k_id.
Proof. reflexivity. Qed.

(** The first sign-in creates the callback while nothing is selected. *)
Lemma first_sign_in_listener appId fs uid :
  uid ≠ [] →
  projectsListener (step appId (fs, initial) (AuthStateChanged (Some uid))).2
  = Some None.
Proof.
  intros Hu. simpl. unfold userEffect, pipelineEffect. simpl.
  by rewrite bool_decide_eq_false_2.
Qed.

(** While that closure is alive, every snapshot that is not empty selects
    its first project, whatever the user had selected. *)
Lemma stale_listener_replaces_selection appId fs st d snap :
  projectsListener st = Some None →
  selectedProjectId (step appId (fs, st) (ProjectsSnapshot (d :: snap))).2
  = withId d !! k_id.
Proof.
  intros Hl. simpl. rewrite Hl. unfold pipelineEffect.
  by destruct (_ || _).
Qed.

(** Picking a project leaves the closure of the subscription as it was. *)
Lemma pick_project_keeps_listener appId w project :
  projectsListener (step appId w (PickProject project)).2 = projectsListener w.2.
Proof.
  destruct w as [fs st]. simpl. unfold pipelineEffect.
  by destruct (_ || _).
Qed.

(** The closure can also hold a selection that is gone: after a sign-out
    and a second sign-in the callback keeps the project of the first
    user, and the first project of the second user is not selected although
    nothing is selected when its snapshot arrives. *)
Lemma no_selection_after_second_sign_in :
  selectedProjectId session_after_second_sign_in.2 = None
  ∧ selectedProjectId
      (step sample_appId session_after_second_sign_in (ProjectsSnapshot [beta])).2
    = None.
Proof. split; by vm_compute. Qed.

(** C8, at the failing input. The user signs in, receives two projects
    (the first is selected), picks the second, and a further snapshot of
    the projects arrives: the selection is replaced by the first project
    of that snapshot. *)
Theorem projects_snapshot_replaces_selection :
  selectedProjectId session_with_beta_selected.2 = Some (VStr (lit "p2"))
  ∧ selectedProjectId
      (step sample_appId session_with_beta_selected
            (ProjectsSnapshot [alpha; beta; gamma])).2
    = Some (VStr (lit "p1")).
Proof. split; by vm_compute. Qed.

(** ** The theorems at sample inputs *)

Ltac not_blank_literal :=
  let H := fresh in
  intros H; apply trim_nil_iff in H; vm_compute in H; discriminate H.

Lemma import_row_non_numeric_rating_witness :
  let headers := csvHeaders [sample_header] in
  let values := split SEMI (trim (lit " Beta ;abc")) in
  let record := mappedData (rowObject headers values) 0 in
  record !! k_nota = Some (VNum 0)
  ∧ record !! k_nomeFantasia = Some (VStr (lit "Beta"))
  ∧ record !! k_setor = Some (VStr [])
  ∧ record !! k_email1 = Some (VStr []).
Proof.
  intros headers values record.
  destruct (import_row_non_numeric_rating headers (lit " Beta ;abc") 0)
    as (Hnota & _ & Htext & Hmissing & _).
  split; [|split; [|split]].
  - apply (Hnota 1%nat).
    + split; [reflexivity|]. intros j Hj.
      destruct j as [|[|[|j]]]; [lia|lia| |discriminate].
      intros H. vm_compute in H. discriminate H.
    + apply not_numeric_iff. reflexivity.
  - apply (Htext h_NomeFantasia k_nomeFantasia 0%nat).
    + unfold textFields. by left.
    + split; [reflexivity|]. intros j Hj.
      destruct j as [|[|[|j]]]; [lia| | |discriminate];
        intros H; vm_compute in H; discriminate H.
  - apply (Htext h_Setor k_setor 2%nat).
    + unfold textFields. do 3 right. by left.
    + split; [reflexivity|]. intros j Hj.
      destruct j as [|[|[|j]]]; [lia|lia|lia|discriminate].
  - apply (Hmissing h_Email1 k_email1).
    + unfold textFields. do 6 right. by left.
    + not_in_literal.
Defined.

Lemma import_creates_one_record_per_line_witness :
  let coll := [lit "artifacts"; sample_appId; lit "users"; sample_uid;
               lit "investors"] in
  let r := handleImport sample_appId sample_env (Some sample_uid)
             (joinLines (sample_header :: sample_lines)) empty_store in
  well_formed_line sample_header
  ∧ Forall well_formed_line sample_lines
  ∧ (∃ batch, requests r.1 = [Commit batch] ∧ length batch = 2%nat)
  ∧ size (docs r.1) = 2%nat
  ∧ is_Some (docs r.1 !! (coll ++ [lit "inv0"]))
  ∧ is_Some (docs r.1 !! (coll ++ [lit "inv1"]))
  ∧ r.2 = [ShowToast (msg_imported 2) success; Close].
Proof.
  intros coll r.
  assert (well_formed_line sample_header) as Hh.
  { split; [not_in_literal|not_blank_literal]. }
  assert (Forall well_formed_line sample_lines) as Hl.
  { unfold sample_lines.
    constructor; [split; [not_in_literal|not_blank_literal]|].
    constructor; [split; [not_in_literal|not_blank_literal]|].
    constructor. }
  destruct (import_creates_one_record_per_line sample_appId sample_env sample_uid
              sample_header sample_lines empty_store) as (Hreq & Hok & _).
  - valid_literal.
  - valid_literal.
  - exact Hh.
  - exact Hl.
  - intros i j Hi Hj Heq. simpl in Hi, Hj.
    destruct i as [|[|i]], j as [|[|j]]; try lia; try reflexivity;
      vm_compute in Heq; discriminate Heq.
  - intros i _. apply lookup_empty.
  - destruct (Hok eq_refl) as (Hrec & _ & Hsize & Hui).
    split; [exact Hh|]. split; [exact Hl|]. split; [exact Hreq|].
    split; [exact Hsize|].
    split; [exact (mk_is_Some _ _ (proj1 (Hrec 0%nat _ eq_refl)))|].
    split; [exact (mk_is_Some _ _ (proj1 (Hrec 1%nat _ eq_refl)))|].
    exact Hui.
Defined.

Lemma add_to_pipeline_default_entries_witness :
  let coll := [lit "artifacts"; sample_appId; lit "users"; sample_uid;
               lit "projects"; lit "p1"; lit "pipeline"] in
  let ids := [lit "i1"; lit "i2"] in
  let r := handleAdd sample_appId true (Some sample_uid) (Some (VStr (lit "p1")))
             ((fun i => Some (VStr i)) <$> ids) store_with_acme in
  (∀ i, i ∈ ids → docs r.1 !! (coll ++ [i]) = Some defaultEntry)
  ∧ (∀ i, i ∈ collectionIds (docs r.1) coll
          ↔ i ∈ ids ∨ i ∈ collectionIds (docs store_with_acme) coll)
  ∧ NoDup (collectionIds (docs r.1) coll).
Proof.
  intros coll ids r.
  destruct (add_to_pipeline_default_entries sample_appId true sample_uid (lit "p1")
              ids store_with_acme) as (_ & _ & Hok & _).
  - valid_literal.
  - valid_literal.
  - valid_literal.
  - unfold ids. constructor; [valid_literal|]. constructor; [valid_literal|].
    constructor.
  - discriminate.
  - destruct (Hok eq_refl) as (Hentry & _ & Hids & Hnd & _).
    split; [exact Hentry|]. split; [exact Hids|exact Hnd].
Defined.

Lemma merged_record_pipeline_fields_win_witness :
  let d := {| doc_id := lit "i1"; doc_data := defaultEntry |} in
  d ∈ [d] ∧ has_master [withId acme] d
  ∧ ∃ m r, m ∈ [withId acme] ∧ m !! k_id = Some (VStr (doc_id d))
           ∧ r = mergeEntry d m ∧ r ∈ investorsInProject [withId acme] [d]
           ∧ dom r = dom m ∪ dom (doc_data d)
           ∧ (∀ k v, doc_data d !! k = Some v → r !! k = Some v)
           ∧ (∀ k, doc_data d !! k = None → r !! k = m !! k).
Proof.
  intros d.
  assert (d ∈ [d]) as Hd by (by left).
  assert (has_master [withId acme] d) as Hm by (by left).
  split; [exact Hd|]. split; [exact Hm|].
  exact (merged_record_pipeline_fields_win [withId acme] [d] d Hd Hm).
Defined.

Lemma add_interaction_guard_witness :
  blank (lit "  ")
  ∧ handleAddInteraction sample_appId true 1000 (Some sample_uid)
      (Some (VStr (lit "p1"))) (withId acme) false (lit "Email") (lit "  ")
      store_with_acme
    = (store_with_acme, []).
Proof.
  assert (blank (lit "  ")) as Hb by (by repeat constructor).
  split; [exact Hb|].
  apply add_interaction_guard. left. exact Hb.
Defined.

(** * Further properties of the code *)

(** ** The importer: lines, cells and numerals *)

Lemma length_split sep (s : list char) :
  length (split sep s) = S (length (filter (fun c => c = sep) s)).
Proof.
  induction s as [|c r IH]; [done|].
  pose proof (split_nonempty sep r) as Hsplit.
  destruct (decide (c = sep)) as [->|Hne].
  - rewrite filter_cons_True by done. simpl. rewrite N.eqb_refl. simpl.
    by rewrite IH.
  - rewrite filter_cons_False by done. rewrite <- IH. simpl.
    destruct (N.eqb_spec c sep); [done|]. by destruct (split sep r).
Qed.

(** X1. A text that is not blank is imported as one record for every
    line feed of the trimmed text: each line after the first is a record,
    the blank ones included. *)
Theorem import_one_record_per_line_feed
    (appId : jsstring) (env : ImportEnv) (uid csvData : jsstring) (fs : Firestore) :
  valid_segment appId → valid_segment uid → ¬ blank csvData →
  ∃ batch,
    requests (handleImport appId env (Some uid) csvData fs).1
    = requests fs ++ [Commit batch]
    ∧ length batch = lineBreaks (trim csvData).
Proof.
  intros Ha Hu Hnb. unfold handleImport.
  rewrite bool_decide_eq_false_2 by (by rewrite trim_nil_iff).
  rewrite investorsCollection_Some by done.
  set (batch := imap _ (investorsToImport csvData)).
  exists batch. split.
  - unfold commit. by destruct (commit_ok env).
  - unfold batch, investorsToImport, csvLines, lineBreaks.
    rewrite length_imap, length_fmap, length_tl, length_split. simpl. lia.
Qed.

Lemma import_one_record_per_line_feed_witness :
  ∃ batch,
    requests (handleImport sample_appId sample_env (Some sample_uid)
                (joinLines (sample_header :: sample_lines)) empty_store).1
    = requests empty_store ++ [Commit batch]
    ∧ length batch = lineBreaks (trim (joinLines (sample_header :: sample_lines))).
Proof.
  apply import_one_record_per_line_feed.
  - valid_literal.
  - valid_literal.
  - intros H. apply trim_nil_iff in H. vm_compute in H. discriminate H.
Defined.

Lemma rowObject_lookup_cell headers values H v :
  rowObject headers values !! H = Some v → ∃ i, v = cell values i.
Proof.
  induction headers as [|h hs IH] using rev_ind; [done|].
  rewrite rowObject_snoc. unfold setProp. case_bool_decide; [done|].
  destruct (decide (h = H)) as [->|Hne].
  - rewrite lookup_insert_eq. intros [= <-]. eauto.
  - by rewrite lookup_insert_ne.
Qed.

Lemma cell_of_blank_line i : cell (split SEMI []) i = [].
Proof. by destruct i. Qed.

(** X2. A blank line among the data lines is imported as an investor of
    its own: every text field is empty and the rating is 0, whatever the
    header row is. *)
Theorem blank_line_imports_empty_investor
    (headers : list jsstring) (line : jsstring) (now : Z) :
  blank line →
  let record := mappedData (rowObject headers (split SEMI (trim line))) now in
  record !! k_nota = Some (VNum 0)
  ∧ ∀ H k, (H, k) ∈ textFields → record !! k = Some (VStr []).
Proof.
  intros Hb record. subst record. apply trim_nil_iff in Hb. rewrite Hb.
  assert (∀ H, orEmpty (rowObject headers (split SEMI []) !! H) = VStr []) as Htext.
  { intros H. destruct (rowObject _ _ !! H) as [v|] eqn:E; [|done].
    apply rowObject_lookup_cell in E as [i ->]. by rewrite cell_of_blank_line. }
  split.
  - rewrite mappedData_nota.
    destruct (rowObject _ _ !! h_Nota) as [v|] eqn:E; [|done].
    apply rowObject_lookup_cell in E as [i ->]. by rewrite cell_of_blank_line.
  - intros H k Hin. by rewrite (mappedData_text _ _ H k Hin), Htext.
Qed.

Lemma blank_line_imports_empty_investor_witness :
  blank (lit "  ")
  ∧ mappedData (rowObject (csvHeaders [sample_header]) (split SEMI (trim (lit "  ")))) 0
      !! k_nomeFantasia = Some (VStr []).
Proof.
  assert (blank (lit "  ")) as Hb by (by repeat constructor).
  split; [exact Hb|].
  apply (proj2 (blank_line_imports_empty_investor (csvHeaders [sample_header])
                  (lit "  ") 0 Hb) h_NomeFantasia).
  unfold textFields. by left.
Defined.

Lemma trim_snoc_ws s c : is_ws c = true → trim (s ++ [c]) = trim s.
Proof.
  intros Hc. rewrite <- (trim_trimEnd (s ++ [c])).
  rewrite trimEnd_app_blank by (by apply blank_cons; [|apply blank_nil]).
  apply trim_trimEnd.
Qed.

Lemma well_formed_line_snoc_CR l : well_formed_line l → well_formed_line (withCR l).
Proof.
  intros [Hlf Hnb]. unfold withCR. split.
  - intros H. apply elem_of_app in H as [H|H]; [done|].
    apply list_elem_of_singleton in H. discriminate H.
  - intros H. by apply blank_app in H as [? _].
Qed.

(** X3. Carriage returns at the ends of the lines (a text pasted from a
    file with Windows line ends) change nothing: the import does what it
    does for the same lines without them. *)
Theorem import_ignores_carriage_returns
    (appId : jsstring) (env : ImportEnv) (userId : option jsstring)
    (header : jsstring) (lines : list jsstring) (fs : Firestore) :
  well_formed_line header → Forall well_formed_line lines →
  handleImport appId env userId
    (joinLines (withCR <$> header :: lines)) fs
  = handleImport appId env userId (joinLines (header :: lines)) fs.
Proof.
  intros Hh Hall.
  assert (well_formed_line (withCR header)) as Hh'
    by by apply well_formed_line_snoc_CR.
  assert (Forall well_formed_line (withCR <$> lines)) as Hall'.
  { apply Forall_fmap. eapply Forall_impl; [exact Hall|].
    intros l Hl. by apply well_formed_line_snoc_CR. }
  assert (investorsToImport (joinLines (withCR <$> header :: lines))
          = investorsToImport (joinLines (header :: lines))) as Hrows.
  { rewrite fmap_cons.
    rewrite (investorsToImport_joinLines _ _ Hh' Hall').
    rewrite (investorsToImport_joinLines _ _ Hh Hall).
    unfold csvHeaders, withCR. simpl. rewrite trim_snoc_ws by done.
    rewrite <- list_fmap_compose. apply list_fmap_ext. intros i l _. simpl.
    by rewrite trim_snoc_ws. }
  unfold handleImport. rewrite Hrows.
  rewrite !bool_decide_eq_false_2; [done| |].
  - apply joinLines_header_not_blank, Hh.
  - rewrite fmap_cons. apply joinLines_header_not_blank, Hh'.
Qed.

Lemma import_ignores_carriage_returns_witness :
  well_formed_line sample_header ∧ Forall well_formed_line sample_lines
  ∧ handleImport sample_appId sample_env (Some sample_uid)
      (joinLines (withCR <$> sample_header :: sample_lines)) empty_store
    = handleImport sample_appId sample_env (Some sample_uid)
        (joinLines (sample_header :: sample_lines)) empty_store.
Proof.
  assert (well_formed_line sample_header) as Hh.
  { split; [not_in_literal|not_blank_literal]. }
  assert (Forall well_formed_line sample_lines) as Hl.
  { unfold sample_lines.
    constructor; [split; [not_in_literal|not_blank_literal]|].
    constructor; [split; [not_in_literal|not_blank_literal]|].
    constructor. }
  split; [exact Hh|]. split; [exact Hl|].
  exact (import_ignores_carriage_returns sample_appId sample_env (Some sample_uid)
           sample_header sample_lines empty_store Hh Hl).
Defined.










Lemma cell_app_l values extra i :
  (i < length values)%nat → cell (values ++ extra) i = cell values i.
Proof. intros Hi. unfold cell. by rewrite lookup_app_l. Qed.

Lemma rowObject_surplus hs values extra :
  (length hs ≤ length values)%nat →
  rowObject hs (values ++ extra) = rowObject hs values.
Proof.
  induction hs as [|h hs IH] using rev_ind; [done|]. intros Hlen.
  rewrite length_app in Hlen. simpl in Hlen.
  rewrite !rowObject_snoc, IH by lia. by rewrite cell_app_l by lia.
Qed.

(** X5. The cells of a row beyond the last header are ignored: a row
    with more values than the header row has names gives the record of its
    first values. *)
Theorem surplus_cells_are_ignored
    (headers values extra : list jsstring) (now : Z) :
  (length headers ≤ length values)%nat →
  mappedData (rowObject headers (values ++ extra)) now
  = mappedData (rowObject headers values) now.
Proof. intros Hlen. by rewrite rowObject_surplus. Qed.

Lemma surplus_cells_are_ignored_witness :
  (length [h_NomeFantasia; h_Nota] ≤ length [lit "Acme"; lit "5"])%nat
  ∧ mappedData (rowObject [h_NomeFantasia; h_Nota]
                  ([lit "Acme"; lit "5"] ++ [lit "surplus"])) 0
    = mappedData (rowObject [h_NomeFantasia; h_Nota] [lit "Acme"; lit "5"]) 0.
Proof.
  assert (length [h_NomeFantasia; h_Nota] ≤ length [lit "Acme"; lit "5"])%nat as H
    by (simpl; lia).
  split; [exact H|]. exact (surplus_cells_are_ignored _ _ _ 0 H).
Defined.

Lemma rowObject_lookup_proto hs values :
  rowObject hs values !! lit "__proto__" = None.
Proof.
  induction hs as [|h hs IH] using rev_ind; [done|].
  rewrite rowObject_snoc. unfold setProp. case_bool_decide; [done|].
  by rewrite lookup_insert_ne.
Qed.

Lemma rowObject_cols_lookup (cols : list (jsstring * jsstring)) H v :
  NoDup cols.*1 → (H, v) ∈ cols → H ≠ lit "__proto__" →
  rowObject cols.*1 cols.*2 !! H = Some (trim v).
Proof.
  intros Hnd Hin Hproto. apply list_elem_of_lookup in Hin as [i Hi].
  rewrite (rowObject_lookup_column _ _ _ i); [|done|].
  - unfold valueAt. by rewrite list_lookup_fmap, Hi.
  - split; [by rewrite list_lookup_fmap, Hi|].
    intros j Hj Hsome.
    assert (cols.*1 !! i = Some H) as Hi' by (by rewrite list_lookup_fmap, Hi).
    pose proof (NoDup_lookup _ _ _ _ Hnd Hi' Hsome). lia.
Qed.

(** X6. When no header is repeated the order of the columns does not
    matter: moving the columns of the header row and of a data row in the
    same way gives the same record. *)
Theorem column_order_is_irrelevant
    (cols cols' : list (jsstring * jsstring)) (now : Z) :
  NoDup cols.*1 → cols ≡ₚ cols' →
  mappedData (rowObject cols.*1 cols.*2) now
  = mappedData (rowObject cols'.*1 cols'.*2) now.
Proof.
  intros Hnd Hperm. f_equal. apply map_eq. intros H.
  assert (NoDup cols'.*1) as Hnd' by (by rewrite <- Hperm).
  destruct (decide (H = lit "__proto__")) as [->|Hproto].
  { by rewrite !rowObject_lookup_proto. }
  destruct (decide (H ∈ cols.*1)) as [Hin|Hout].
  - apply list_elem_of_fmap in Hin as ([H' v] & -> & Hin). simpl in *.
    rewrite (rowObject_cols_lookup cols H' v) by done.
    rewrite (rowObject_cols_lookup cols' H' v); [done|done| |done].
    by rewrite <- Hperm.
  - rewrite !rowObject_lookup_missing; [done| |done].
    by rewrite <- Hperm.
Qed.

Lemma column_order_is_irrelevant_witness :
  let cols := [(h_NomeFantasia, lit "Acme"); (h_Nota, lit "5")] in
  let cols' := [(h_Nota, lit "5"); (h_NomeFantasia, lit "Acme")] in
  NoDup cols.*1 ∧ cols ≡ₚ cols'
  ∧ mappedData (rowObject cols.*1 cols.*2) 0
    = mappedData (rowObject cols'.*1 cols'.*2) 0.
Proof.
  intros cols cols'.
  assert (NoDup cols.*1) as Hnd.
  { apply NoDup_cons. split; [not_in_literal|]. apply NoDup_singleton. }
  assert (cols ≡ₚ cols') as Hperm by apply perm_swap.
  split; [exact Hnd|]. split; [exact Hperm|].
  exact (column_order_is_irrelevant cols cols' 0 Hnd Hperm).
Defined.

Lemma mappedData_id_None d now : mappedData d now !! k_id = None.
Proof.
  unfold mappedData.
  repeat rewrite lookup_insert_ne by key_neq. apply lookup_empty.
Qed.

(** X7. An imported record has the twelve fields of an investor and no
    other, whatever the header row named, and none of them is called id:
    read back from the store, the investor carries the identifier of its
    document. *)
Theorem imported_record_fields
    (investorData : gmap jsstring jsstring) (now : Z) (id : jsstring) :
  dom (mappedData investorData now) = list_to_set investorFields
  ∧ withId {| doc_id := id; doc_data := toFirestore <$> mappedData investorData now |}
      !! k_id = Some (VStr id).
Proof.
  split.
  - unfold mappedData, investorFields. rewrite !dom_insert_L, dom_empty_L. reflexivity.
  - unfold withId. simpl. rewrite lookup_union, lookup_fmap, mappedData_id_None.
    simpl. by rewrite lookup_singleton_eq.
Qed.

(** ** The add-to-pipeline dialog: selection and filter menus *)

Lemma elem_of_toggleSelection `{EqDecision Id} (investorId id : Id) (prev : list Id) :
  id ∈ toggleSelection investorId prev
  ↔ (id = investorId ∧ investorId ∉ prev) ∨ (id ≠ investorId ∧ id ∈ prev).
Proof.
  unfold toggleSelection. case_bool_decide as Hin.
  - rewrite list_elem_of_In, filter_In, <- list_elem_of_In.
    rewrite negb_true_iff, bool_decide_eq_false. split.
    + intros [Hid Hne]. by right.
    + intros [[-> Hout]|[Hne Hid]]; [done|by split].
  - rewrite elem_of_app, list_elem_of_singleton.
    destruct (decide (id = investorId)) as [->|Hne]; split.
    + intros _. by left.
    + intros _. by right.
    + intros [Hid|Heq]; [by right|done].
    + intros [[Heq _]|[_ Hid]]; [done|by left].
Qed.

(** X8. Clicking a candidate toggles it: the clicked identifier is
    selected exactly when it was not, every other identifier stays as it
    was, no identifier is ever selected twice, and a second click gives
    the selection before the first one back (up to the order). *)
Theorem toggleSelection_flips `{EqDecision Id} (investorId : Id) (prev : list Id) :
  NoDup prev →
  NoDup (toggleSelection investorId prev)
  ∧ (investorId ∈ toggleSelection investorId prev ↔ investorId ∉ prev)
  ∧ (∀ id, id ≠ investorId → id ∈ toggleSelection investorId prev ↔ id ∈ prev)
  ∧ toggleSelection investorId (toggleSelection investorId prev) ≡ₚ prev.
Proof.
  intros Hnd.
  assert (∀ l, NoDup l → NoDup (toggleSelection investorId l)) as Hkeep.
  { intros l Hl. unfold toggleSelection. case_bool_decide as Hin.
    - by apply NoDup_ListNoDup, List.NoDup_filter, NoDup_ListNoDup.
    - apply NoDup_app. split; [done|]. split; [|apply NoDup_singleton].
      intros x Hx Hx'. apply list_elem_of_singleton in Hx'. by subst. }
  split; [by apply Hkeep|]. split; [|split].
  - rewrite elem_of_toggleSelection. tauto.
  - intros id Hne. rewrite elem_of_toggleSelection. tauto.
  - apply NoDup_Permutation; [by apply Hkeep, Hkeep|done|].
    intros id. rewrite !elem_of_toggleSelection.
    destruct (decide (id = investorId)) as [->|Hne];
      destruct (decide (investorId ∈ prev)); tauto.
Qed.

Lemma toggleSelection_flips_witness :
  let prev := [lit "i1"; lit "i2"] in
  NoDup prev
  ∧ NoDup (toggleSelection (lit "i1") prev)
  ∧ (lit "i1" ∈ toggleSelection (lit "i1") prev ↔ lit "i1" ∉ prev)
  ∧ (∀ id, id ≠ lit "i1" → id ∈ toggleSelection (lit "i1") prev ↔ id ∈ prev)
  ∧ toggleSelection (lit "i1") (toggleSelection (lit "i1") prev) ≡ₚ prev.
Proof.
  intros prev.
  assert (NoDup prev) as Hnd.
  { apply NoDup_cons. split; [not_in_literal|]. apply NoDup_singleton. }
  split; [exact Hnd|]. exact (toggleSelection_flips (lit "i1") prev Hnd).
Defined.

Lemma newSet_snoc values x :
  newSet (values ++ [x])
  = if existsb (fun y => sameValueZero (Some y) (Some x)) (newSet values)
    then newSet values else newSet values ++ [x].
Proof. unfold newSet. by rewrite foldl_app. Qed.

Lemma existsb_same_string (seen : list value) s :
  existsb (fun y => sameValueZero (Some y) (Some (VStr s))) seen = true
  ↔ VStr s ∈ seen.
Proof.
  rewrite existsb_exists. split.
  - intros (y & Hy & Hsame). apply sameValueZero_str in Hsame as [= ->].
    by apply list_elem_of_In.
  - intros Hin. exists (VStr s). split; [by apply list_elem_of_In|].
    by apply sameValueZero_str.
Qed.

Lemma elem_of_newSet_1 values v : v ∈ newSet values → v ∈ values.
Proof.
  induction values as [|x values IH] using rev_ind; [done|].
  rewrite newSet_snoc. intros H. apply elem_of_app. destruct (existsb _ _).
  - left. by apply IH.
  - apply elem_of_app in H as [H|H]; [left; by apply IH|by right].
Qed.

Lemma elem_of_newSet_string values s : VStr s ∈ newSet values ↔ VStr s ∈ values.
Proof.
  split; [apply elem_of_newSet_1|].
  induction values as [|x values IH] using rev_ind; [done|].
  rewrite newSet_snoc. intros H. apply elem_of_app in H as [Hin|Hx].
  - destruct (existsb _ _); [by apply IH|]. apply elem_of_app. left. by apply IH.
  - apply list_elem_of_singleton in Hx as <-. destruct (existsb _ _) eqn:E.
    + by apply existsb_same_string.
    + apply elem_of_app. right. by apply list_elem_of_singleton.
Qed.

Lemma newSet_string_once values s i j :
  newSet values !! i = Some (VStr s) → newSet values !! j = Some (VStr s) → i = j.
Proof.
  revert i j. induction values as [|x values IH] using rev_ind; [done|].
  intros i j. rewrite newSet_snoc.
  destruct (existsb _ _) eqn:E; [apply IH|].
  intros Hi Hj.
  assert (∀ n, (newSet values ++ [x]) !! n = Some (VStr s) →
               (n < length (newSet values))%nat ∨
               (n = length (newSet values) ∧ x = VStr s)) as Hcases.
  { intros n Hn. destruct (decide (n < length (newSet values))%nat); [by left|].
    right. rewrite lookup_app_r in Hn by lia.
    destruct (n - length (newSet values))%nat as [|m] eqn:En; [|done].
    injection Hn as ->. split; [lia|done]. }
  destruct (Hcases i Hi) as [Hil|[-> Hx]], (Hcases j Hj) as [Hjl|[-> Hx']]; try done.
  - rewrite lookup_app_l in Hi, Hj by done. by eapply IH.
  - subst x. rewrite lookup_app_l in Hi by done.
    assert (VStr s ∈ newSet values) as Hin by (by eapply list_elem_of_lookup_2).
    apply existsb_same_string in Hin. congruence.
  - subst x. rewrite lookup_app_l in Hj by done.
    assert (VStr s ∈ newSet values) as Hin by (by eapply list_elem_of_lookup_2).
    apply existsb_same_string in Hin. congruence.
Qed.

Lemma elem_of_truthyValues key masters v :
  v ∈ truthyValues key masters
  ↔ truthy v = true ∧ ∃ m, m ∈ masters ∧ m !! key = Some v.
Proof.
  unfold truthyValues. rewrite list_elem_of_omap. split.
  - intros (m & Hm & Hv). destruct (m !! key) as [v'|] eqn:E; [|done].
    destruct (truthy v') eqn:Ht; [|done]. injection Hv as ->. eauto.
  - intros (Ht & m & Hm & E). exists m. split; [done|]. by rewrite E, Ht.
Qed.

(** X9. The classification menu of the dialog offers a text exactly when
    it is the classification of some master investor and is not empty,
    and offers it once. *)
Theorem classification_menu_offers_each_tag_once
    (masters : list obj) (s : jsstring) :
  (VStr s ∈ uniqueClassifications masters
   ↔ s ≠ [] ∧ ∃ m, m ∈ masters ∧ m !! k_classificacao = Some (VStr s))
  ∧ (∀ i j, uniqueClassifications masters !! i = Some (VStr s) →
            uniqueClassifications masters !! j = Some (VStr s) → i = j).
Proof.
  split; [|apply newSet_string_once].
  unfold uniqueClassifications.
  rewrite elem_of_newSet_string, elem_of_truthyValues. simpl.
  rewrite negb_true_iff, bool_decide_eq_false. done.
Qed.

Lemma elem_of_availableInvestors masters projectInvs cf sf mi :
  mi ∈ availableInvestors masters projectInvs cf sf
  ↔ mi ∈ masters
    ∧ (∀ pi, pi ∈ projectInvs → sameValueZero (mi !! k_id) (pi !! k_id) = false)
    ∧ (cf = [] ∨ mi !! k_classificacao = Some (VStr cf))
    ∧ (sf = [] ∨ mi !! k_setor = Some (VStr sf)).
Proof.
  unfold availableInvestors. rewrite list_elem_of_In, filter_In, <- list_elem_of_In.
  rewrite !andb_true_iff, negb_true_iff, !orb_true_iff, !bool_decide_eq_true,
    !strict_eq_str_true.
  rewrite no_same_identifier. tauto.
Qed.

(** X10. The classification menu offers no tag that matches nothing: for
    a project whose pipeline is empty, choosing an offered tag lists at
    least one candidate, and every candidate listed carries the tag. *)
Theorem offered_classification_has_candidates
    (masters : list obj) (s : jsstring) :
  VStr s ∈ uniqueClassifications masters →
  availableInvestors masters [] s [] ≠ []
  ∧ ∀ mi, mi ∈ availableInvestors masters [] s [] →
          mi !! k_classificacao = Some (VStr s).
Proof.
  intros Hin. unfold uniqueClassifications in Hin.
  apply elem_of_newSet_string, elem_of_truthyValues in Hin as (Ht & m & Hm & Hc).
  simpl in Ht. apply negb_true_iff, bool_decide_eq_false in Ht. split.
  - assert (m ∈ availableInvestors masters [] s []) as Hcand.
    { apply elem_of_availableInvestors. split; [done|]. split; [|by auto].
      intros pi Hpi. by apply elem_of_nil in Hpi. }
    intros Hnil. rewrite Hnil in Hcand. by apply elem_of_nil in Hcand.
  - intros mi Hmi. apply elem_of_availableInvestors in Hmi as (_ & _ & [Hs|Hs] & _); done.
Qed.

Lemma offered_classification_has_candidates_witness :
  let masters := [ <[k_classificacao := VStr (lit "VC")]> (withId acme) ] in
  VStr (lit "VC") ∈ uniqueClassifications masters
  ∧ availableInvestors masters [] (lit "VC") [] ≠ [].
Proof.
  intros masters.
  assert (VStr (lit "VC") ∈ uniqueClassifications masters) as Hin by (by left).
  split; [exact Hin|].
  exact (proj1 (offered_classification_has_candidates masters (lit "VC") Hin)).
Defined.

Lemma elem_of_collectionDocs d coll name data :
  {| doc_id := name; doc_data := data |} ∈ collectionDocs d coll
  ↔ d !! (coll ++ [name]) = Some data.
Proof.
  unfold collectionDocs. rewrite list_elem_of_omap. split.
  - intros ([p data'] & Hin & Hsome). apply elem_of_map_to_list in Hin.
    destruct (last p) as [n|]; [|done]. case_bool_decide; [|done].
    injection Hsome as -> ->. by subst p.
  - intros Hd. exists (coll ++ [name], data). split.
    + by apply elem_of_map_to_list.
    + rewrite last_snoc. by rewrite bool_decide_eq_true_2.
Qed.

Lemma handleAdd_docs appId uid pid ids fs :
  valid_segment appId → valid_segment uid → valid_segment pid →
  Forall valid_segment ids → ids ≠ [] →
  docs (handleAdd appId true (Some uid) (Some (VStr pid))
          ((fun i => Some (VStr i)) <$> ids) fs).1
  = foldl applyWrite (docs fs)
      ((fun ref => Set_ ref defaultEntry)
         <$> ((fun i => [lit "artifacts"; appId; lit "users"; uid; lit "projects";
                         pid; lit "pipeline"] ++ [i]) <$> ids)).
Proof.
  intros Ha Hu Hp Hids Hne. unfold handleAdd.
  destruct ids as [|i0 ids']; [done|].
  change (length ((fun i => Some (VStr i)) <$> i0 :: ids') =? 0)%nat with false.
  cbv iota. by rewrite mapM_pipelineRef.
Qed.

Lemma mergeEntry_id d m :
  doc_data d !! k_id = None → m !! k_id = Some (VStr (doc_id d)) →
  mergeEntry d m !! k_id = Some (VStr (doc_id d)).
Proof. intros Hd Hm. by rewrite mergeEntry_lookup, Hd, Hm. Qed.

(** X11. An investor that was just added to the pipeline is no longer
    offered: once the batch of [handleAdd] is committed and the pipeline
    subscription has delivered the collection, no master investor with a
    chosen identifier is among the candidates, whatever the filters. *)
Theorem added_investors_are_not_offered_again
    (appId uid pid : jsstring) (ids : list jsstring) (masters : list obj)
    (cf sf : jsstring) (fs : Firestore) (mi : obj) (i : jsstring) :
  let coll := [lit "artifacts"; appId; lit "users"; uid; lit "projects"; pid;
               lit "pipeline"] in
  let fs' := (handleAdd appId true (Some uid) (Some (VStr pid))
                ((fun i => Some (VStr i)) <$> ids) fs).1 in
  let projectInvs := investorsInProject masters (collectionDocs (docs fs') coll) in
  valid_segment appId → valid_segment uid → valid_segment pid →
  Forall valid_segment ids →
  i ∈ ids → mi !! k_id = Some (VStr i) →
  mi ∉ availableInvestors masters projectInvs cf sf.
Proof.
  intros coll fs' projectInvs Ha Hu Hp Hids Hi Hid Hcand.
  apply elem_of_availableInvestors in Hcand as (Hmi & Habsent & _).
  assert (ids ≠ []) as Hne by (intros ->; by apply elem_of_nil in Hi).
  set (d := {| doc_id := i; doc_data := defaultEntry |}).
  assert (d ∈ collectionDocs (docs fs') coll) as Hd.
  { apply elem_of_collectionDocs. subst fs'. rewrite handleAdd_docs by done.
    rewrite (foldl_applyWrite_const _ _ defaultEntry), defaultEntry_stored; [done| |].
    - intros w Hw. by apply list_elem_of_fmap in Hw as (ref & -> & _).
    - apply list_elem_of_fmap. exists (Set_ (coll ++ [i]) defaultEntry).
      split; [done|].
      apply (list_elem_of_fmap_2 (fun ref => Set_ ref defaultEntry)).
      by apply (list_elem_of_fmap_2 (fun i => coll ++ [i])). }
  assert (has_master masters d) as Hm by (apply Exists_exists; eauto).
  apply findMaster_has_master in Hm as [m Hfind].
  pose proof (elem_of_investorsInProject _ _ _ _ Hd Hfind) as Hpi.
  apply findMaster_Some in Hfind as [_ Hmid].
  apply Habsent in Hpi. rewrite mergeEntry_id in Hpi; [|done|done].
  rewrite Hid in Hpi. simpl in Hpi. by rewrite bool_decide_eq_true_2 in Hpi.
Qed.

Lemma added_investors_are_not_offered_again_witness :
  let coll := [lit "artifacts"; sample_appId; lit "users"; sample_uid; lit "projects";
               lit "p1"; lit "pipeline"] in
  let fs' := (handleAdd sample_appId true (Some sample_uid) (Some (VStr (lit "p1")))
                ((fun i => Some (VStr i)) <$> [lit "i1"]) empty_store).1 in
  withId acme
    ∉ availableInvestors [withId acme]
        (investorsInProject [withId acme] (collectionDocs (docs fs') coll)) [] [].
Proof.
  apply (added_investors_are_not_offered_again sample_appId sample_uid (lit "p1")
           [lit "i1"] [withId acme] [] [] empty_store (withId acme) (lit "i1")).
  - valid_literal.
  - valid_literal.
  - valid_literal.
  - constructor; [valid_literal|constructor].
  - by left.
  - reflexivity.
Defined.

(** ** The board *)

Lemma column_cons inv l s :
  column (inv :: l) s
  = (if strict_eq_str (inv !! k_status) s then [inv] else []) ++ column l s.
Proof. unfold column. simpl. by destruct (strict_eq_str _ _). Qed.

Lemma concat_fmap_app {A B} (f g : A → list B) (L : list A) :
  concat ((fun s => f s ++ g s) <$> L) ≡ₚ concat (f <$> L) ++ concat (g <$> L).
Proof.
  induction L as [|s L IH]; [done|]. rewrite !fmap_cons. simpl.
  rewrite IH, <- !app_assoc. f_equiv. rewrite !app_assoc. f_equiv.
  apply Permutation_app_comm.
Qed.

Lemma card_in_one_column (x : option value) (inv : obj) (L : list jsstring) :
  NoDup L →
  concat ((fun s => if strict_eq_str x s then [inv] else []) <$> L)
  = if existsb (strict_eq_str x) L then [inv] else [].
Proof.
  induction 1 as [|s L Hs Hnd IH]; [done|]. rewrite fmap_cons. simpl.
  rewrite IH. destruct (strict_eq_str x s) eqn:E; [|done]. simpl.
  destruct (existsb _ L) eqn:Ex; [|done].
  apply existsb_exists in Ex as (s' & Hs' & E').
  apply strict_eq_str_true in E, E'. rewrite E in E'. injection E' as ->.
  by apply list_elem_of_In in Hs'.
Qed.

Lemma NoDup_statuses : NoDup statuses.
Proof. apply (bool_decide_unpack _). by vm_compute. Qed.

(** X12. The columns of the board show each project investor whose status
    names a column exactly once, in the column of its status, and show no
    one else: an investor whose status is missing or is no column name has
    no card at all. *)
Theorem board_columns_partition (projectInvs : list obj) :
  concat (column projectInvs <$> statuses) ≡ₚ List.filter onBoard projectInvs
  ∧ (∀ inv s s', inv ∈ column projectInvs s → inv ∈ column projectInvs s' → s = s')
  ∧ (∀ inv s, inv ∈ column projectInvs s
              ↔ inv ∈ projectInvs ∧ inv !! k_status = Some (VStr s)).
Proof.
  assert (∀ inv s, inv ∈ column projectInvs s
                   ↔ inv ∈ projectInvs ∧ inv !! k_status = Some (VStr s)) as Hcol.
  { intros inv s. unfold column.
    by rewrite list_elem_of_In, filter_In, <- list_elem_of_In, strict_eq_str_true. }
  split; [|split; [|done]].
  - clear Hcol. induction projectInvs as [|inv l IH]; [done|].
    assert (column (inv :: l) <$> statuses
            = (fun s => (if strict_eq_str (inv !! k_status) s then [inv] else [])
                        ++ column l s) <$> statuses) as ->.
    { apply list_fmap_ext. intros i s _. apply column_cons. }
    rewrite concat_fmap_app, card_in_one_column by apply NoDup_statuses.
    rewrite IH.
    change (existsb (strict_eq_str (inv !! k_status)) statuses) with (onBoard inv).
    cbn [List.filter]. by destruct (onBoard inv).
  - intros inv s s' Hs Hs'. apply Hcol in Hs as [_ Hs], Hs' as [_ Hs'].
    rewrite Hs in Hs'. by injection Hs'.
Qed.

(** ** Moving a card and rating an entry *)

Lemma updateDoc_docs ok ref fields fs :
  docs (updateDoc ok ref fields fs).1
  = if ok then alter (fun old => (toFirestore <$> fields) ∪ old) ref (docs fs)
    else docs fs.
Proof.
  unfold updateDoc. destruct (docs fs !! ref) as [old|] eqn:E; simpl.
  - destruct ok; [|done]. apply map_eq. intros p.
    destruct (decide (p = ref)) as [->|Hne].
    + by rewrite lookup_insert_eq, lookup_alter_eq, E.
    + by rewrite lookup_insert_ne, lookup_alter_ne.
  - destruct ok; [|done]. apply map_eq. intros p.
    destruct (decide (p = ref)) as [->|Hne].
    + by rewrite lookup_alter_eq, E.
    + by rewrite lookup_alter_ne.
Qed.

Lemma handleDrop_docs appId ok uid pid i newStatus fs :
  valid_segment appId → valid_segment uid → valid_segment pid → valid_segment i →
  docs (handleDrop appId ok (Some uid) (Some (VStr pid)) i newStatus fs)
  = if ok
    then alter (fun old => {[ k_status := VStr newStatus ]} ∪ old)
               ([lit "artifacts"; appId; lit "users"; uid; lit "projects"; pid;
                 lit "pipeline"] ++ [i]) (docs fs)
    else docs fs.
Proof.
  intros Ha Hu Hp Hi. unfold handleDrop.
  rewrite bool_decide_eq_false_2 by apply Hi.
  assert (truthy_opt (VStr <$> Some uid) = true) as ->.
  { simpl. rewrite bool_decide_eq_false_2; [done|apply Hu]. }
  assert (truthy_opt (Some (VStr pid)) = true) as ->.
  { simpl. rewrite bool_decide_eq_false_2; [done|apply Hp]. }
  cbn [negb orb]. rewrite pipelineRef_Some by done.
  by rewrite updateDoc_docs, map_fmap_singleton.
Qed.

(** X13. Dropping a card on a column changes the status of that pipeline
    entry and nothing else: its priority, its history and every other
    field are kept, every other document is untouched, and when the entry
    does not exist none is created. *)
Theorem drop_changes_status_only
    (appId : jsstring) (uid pid i newStatus : jsstring) (fs : Firestore) :
  let ref := [lit "artifacts"; appId; lit "users"; uid; lit "projects"; pid;
              lit "pipeline"] ++ [i] in
  let d' := docs (handleDrop appId true (Some uid) (Some (VStr pid)) i newStatus fs) in
  valid_segment appId → valid_segment uid → valid_segment pid → valid_segment i →
  (∀ entry, docs fs !! ref = Some entry →
     ∃ entry', d' !! ref = Some entry'
               ∧ entry' !! k_status = Some (VStr newStatus)
               ∧ ∀ k, k ≠ k_status → entry' !! k = entry !! k)
  ∧ (docs fs !! ref = None → d' !! ref = None)
  ∧ (∀ p, p ≠ ref → d' !! p = docs fs !! p).
Proof.
  intros ref d' Ha Hu Hp Hi. subst d'. rewrite handleDrop_docs by done. fold ref.
  split; [|split].
  - intros entry Hentry. eexists. rewrite lookup_alter_eq, Hentry. simpl.
    split; [done|]. split.
    + rewrite lookup_union, lookup_singleton_eq. by destruct (entry !! k_status).
    + intros k Hk. rewrite lookup_union, lookup_singleton_ne by done.
      by destruct (entry !! k).
  - intros Hnone. by rewrite lookup_alter_eq, Hnone.
  - intros p Hne. by rewrite lookup_alter_ne.
Qed.

Lemma drop_changes_status_only_witness :
  let d' := docs (handleDrop sample_appId true (Some sample_uid)
                    (Some (VStr (lit "p1"))) (lit "i1") (lit "Contatado")
                    store_with_acme) in
  ∃ entry', d' !! acme_entry_ref = Some entry'
            ∧ entry' !! k_status = Some (VStr (lit "Contatado"))
            ∧ ∀ k, k ≠ k_status → entry' !! k = defaultEntry !! k.
Proof.
  apply (drop_changes_status_only sample_appId sample_uid (lit "p1") (lit "i1")
           (lit "Contatado") store_with_acme); try valid_literal.
  reflexivity.
Defined.

Lemma handleDrop_alter appId ok userId selectedProjectId i newStatus :
  ∃ o : option path, ∀ fs,
    docs (handleDrop appId ok userId selectedProjectId i newStatus fs)
    = match o with
      | Some ref => alter (fun old => {[ k_status := VStr newStatus ]} ∪ old) ref (docs fs)
      | None => docs fs
      end.
Proof.
  unfold handleDrop. destruct (_ || _ || _); [by exists None|].
  destruct (pipelineRef _ _ _ _) as [ref|]; [|by exists None].
  destruct ok.
  - exists (Some ref). intros fs. by rewrite updateDoc_docs, map_fmap_singleton.
  - exists None. intros fs. by rewrite updateDoc_docs.
Qed.

Lemma handlePriorityChange_alter appId ok userId selectedProjectId investorId n :
  ∃ o : option path, ∀ fs,
    docs (handlePriorityChange appId ok userId selectedProjectId investorId n fs)
    = match o with
      | Some ref => alter (fun old => {[ k_notaDePrioridade := VNum n ]} ∪ old) ref (docs fs)
      | None => docs fs
      end.
Proof.
  unfold handlePriorityChange. destruct (_ || _); [by exists None|].
  destruct (pipelineRef _ _ _ _) as [ref|]; [|by exists None].
  destruct ok.
  - exists (Some ref). intros fs. by rewrite updateDoc_docs, map_fmap_singleton.
  - exists None. intros fs. by rewrite updateDoc_docs.
Qed.

Lemma status_priority_commute (old : obj) (s : jsstring) (n : Z) :
  {[ k_status := VStr s ]} ∪ ({[ k_notaDePrioridade := VNum n ]} ∪ old)
  = {[ k_notaDePrioridade := VNum n ]} ∪ ({[ k_status := VStr s ]} ∪ old).
Proof.
  apply map_eq. intros k. rewrite !lookup_union.
  destruct (decide (k = k_status)) as [->|Hs].
  - rewrite lookup_singleton_eq, lookup_singleton_ne by key_neq.
    by destruct (old !! k_status).
  - rewrite (lookup_singleton_ne k_status) by done.
    by destruct ({[k_notaDePrioridade := VNum n]} !! k), (old !! k).
Qed.

(** X14. Moving a card and rating an entry do not interfere: in either
    order they leave the same documents, for the same entry as for two
    different ones, whether each request succeeds or not. *)
Theorem drop_and_priority_commute
    (appId : jsstring) (ok1 ok2 : bool) (userId : option jsstring)
    (selectedProjectId investorId : option value) (i newStatus : jsstring) (n : Z)
    (fs : Firestore) :
  docs (handlePriorityChange appId ok2 userId selectedProjectId investorId n
          (handleDrop appId ok1 userId selectedProjectId i newStatus fs))
  = docs (handleDrop appId ok1 userId selectedProjectId i newStatus
            (handlePriorityChange appId ok2 userId selectedProjectId investorId n fs)).
Proof.
  destruct (handleDrop_alter appId ok1 userId selectedProjectId i newStatus)
    as [o1 H1].
  destruct (handlePriorityChange_alter appId ok2 userId selectedProjectId investorId n)
    as [o2 H2].
  rewrite H2, H1, H1, H2.
  destruct o1 as [r1|], o2 as [r2|]; try done.
  destruct (decide (r1 = r2)) as [->|Hne].
  - rewrite !alter_alter_eq. apply alter_ext. intros old _. simpl.
    symmetry. apply status_priority_commute.
  - by apply alter_alter_ne.
Qed.

(** X15. A card that was dropped on a column is shown in that column and
    in no other: after the update and the next snapshot of the pipeline
    the derived record of the investor has the new status and the fields
    the entry had. *)
Theorem dropped_card_moves_to_its_column
    (appId uid pid i newStatus : jsstring) (masters : list obj) (m entry : obj)
    (fs : Firestore) :
  let coll := [lit "artifacts"; appId; lit "users"; uid; lit "projects"; pid;
               lit "pipeline"] in
  let fs' := handleDrop appId true (Some uid) (Some (VStr pid)) i newStatus fs in
  let projectInvs := investorsInProject masters (collectionDocs (docs fs') coll) in
  let r := mergeEntry {| doc_id := i;
                         doc_data := {[ k_status := VStr newStatus ]} ∪ entry |} m in
  valid_segment appId → valid_segment uid → valid_segment pid → valid_segment i →
  findMaster masters i = Some m →
  docs fs !! (coll ++ [i]) = Some entry →
  r ∈ column projectInvs newStatus
  ∧ ∀ s, r ∈ column projectInvs s → s = newStatus.
Proof.
  intros coll fs' projectInvs r Ha Hu Hp Hi Hfind Hentry.
  assert (r !! k_status = Some (VStr newStatus)) as Hstatus.
  { subst r. rewrite mergeEntry_lookup. simpl.
    by rewrite lookup_union, lookup_singleton_eq; destruct (entry !! k_status). }
  assert (∀ s, r ∈ column projectInvs s
               ↔ r ∈ projectInvs ∧ r !! k_status = Some (VStr s)) as Hcol.
  { intros s. unfold column.
    by rewrite list_elem_of_In, filter_In, <- list_elem_of_In, strict_eq_str_true. }
  split.
  - apply Hcol. split; [|done]. subst r projectInvs.
    apply elem_of_investorsInProject; [|done].
    apply elem_of_collectionDocs. subst fs'. rewrite handleDrop_docs by done.
    fold coll. by rewrite lookup_alter_eq, Hentry.
  - intros s Hs. apply Hcol in Hs as [_ Hs]. rewrite Hstatus in Hs. by injection Hs.
Qed.

Lemma dropped_card_moves_to_its_column_witness :
  let coll := [lit "artifacts"; sample_appId; lit "users"; sample_uid; lit "projects";
               lit "p1"; lit "pipeline"] in
  let fs' := handleDrop sample_appId true (Some sample_uid) (Some (VStr (lit "p1")))
               (lit "i1") (lit "Contatado") store_with_acme in
  let projectInvs := investorsInProject [withId acme] (collectionDocs (docs fs') coll) in
  let r := mergeEntry {| doc_id := lit "i1";
                         doc_data := {[ k_status := VStr (lit "Contatado") ]}
                                     ∪ defaultEntry |} (withId acme) in
  r ∈ column projectInvs (lit "Contatado")
  ∧ ∀ s, r ∈ column projectInvs s → s = lit "Contatado".
Proof.
  apply (dropped_card_moves_to_its_column sample_appId sample_uid (lit "p1") (lit "i1")
           (lit "Contatado") [withId acme] (withId acme) defaultEntry store_with_acme);
    try valid_literal; reflexivity.
Defined.

(** ** The interaction log: what an append does and when it fails *)

Lemma displayedHistory_mergeEntry d m items :
  doc_data d !! k_historicoDeInteracoes = Some (VArr items) →
  displayedHistory (mergeEntry d m) = rev items.
Proof.
  intros H. unfold displayedHistory. by rewrite mergeEntry_lookup, H.
Qed.

(** X16. When the profile holds the history the store holds, a submitted
    interaction is appended to it: the entry keeps every other field, and
    the profile opened again from the next snapshot shows the new
    interaction first, above the earlier ones in their order. *)
Theorem appended_interaction_is_shown_first
    (appId : jsstring) (now : Z) (uid pid iid : jsstring) (investor entry m : obj)
    (interactionType interactionNotes : jsstring) (items : list value)
    (fs : Firestore) :
  let ref := [lit "artifacts"; appId; lit "users"; uid; lit "projects"; pid;
              lit "pipeline"] ++ [iid] in
  let r := handleAddInteraction appId true now (Some uid) (Some (VStr pid)) investor
             false interactionType interactionNotes fs in
  valid_segment appId → valid_segment uid → valid_segment pid → valid_segment iid →
  ¬ blank interactionNotes →
  investor !! k_id = Some (VStr iid) →
  investor !! k_historicoDeInteracoes = Some (VArr items) →
  Forall stored_item items →
  docs fs !! ref = Some entry →
  ∃ entry',
    docs r.1 !! ref = Some entry'
    ∧ (∀ k, k ≠ k_historicoDeInteracoes → entry' !! k = entry !! k)
    ∧ displayedHistory (mergeEntry {| doc_id := iid; doc_data := entry' |} m)
      = storedInteraction now interactionType interactionNotes :: rev items.
Proof.
  intros ref r Ha Hu Hp Hi Hnotes Hid Hhist Hitems Hentry.
  destruct (written_history_is_profile_history_plus_new appId now uid pid iid investor
              entry interactionType interactionNotes items fs) as [Hdoc _]; try done.
  eexists. split; [exact Hdoc|]. split.
  - intros k Hk. by rewrite lookup_insert_ne.
  - rewrite (displayedHistory_mergeEntry _ _
               (items ++ [storedInteraction now interactionType interactionNotes])).
    + by rewrite rev_app_distr.
    + simpl. by rewrite lookup_insert_eq.
Qed.

Lemma appended_interaction_is_shown_first_witness :
  let investor := mergeEntry {| doc_id := lit "i1"; doc_data := defaultEntry |}
                    (withId acme) in
  let r := handleAddInteraction sample_appId true 1000 (Some sample_uid)
             (Some (VStr (lit "p1"))) investor false (lit "Email") (lit "A")
             store_with_acme in
  ∃ entry',
    docs r.1 !! acme_entry_ref = Some entry'
    ∧ (∀ k, k ≠ k_historicoDeInteracoes → entry' !! k = defaultEntry !! k)
    ∧ displayedHistory (mergeEntry {| doc_id := lit "i1"; doc_data := entry' |}
                          (withId acme))
      = storedInteraction 1000 (lit "Email") (lit "A") :: rev [].
Proof.
  apply (appended_interaction_is_shown_first sample_appId 1000 sample_uid (lit "p1")
           (lit "i1") _ defaultEntry (withId acme) (lit "Email") (lit "A") []
           store_with_acme); try valid_literal.
  - not_blank_literal.
  - reflexivity.
  - reflexivity.
  - constructor.
  - reflexivity.
Defined.

(** X17. A history with an entry the handler cannot read stops every
    append: when some stored interaction is not an object whose [data] is
    a timestamp, the submission sends nothing to the store and reports an
    error. *)
Theorem unreadable_history_blocks_appending
    (appId : jsstring) (ok : bool) (now : Z) (uid : jsstring)
    (selectedProjectId : option value) (investor : obj)
    (interactionType interactionNotes : jsstring) (items : list value)
    (fs : Firestore) :
  ¬ blank interactionNotes → uid ≠ [] → truthy_opt selectedProjectId = true →
  investor !! k_historicoDeInteracoes = Some (VArr items) →
  Exists (fun item => withDate item = None) items →
  handleAddInteraction appId ok now (Some uid) selectedProjectId investor false
    interactionType interactionNotes fs
  = (fs, [ShowToast msg_interaction_failed error]).
Proof.
  intros Hnotes Hu Hsel Hhist Hbad. unfold handleAddInteraction.
  rewrite bool_decide_eq_false_2 by (by rewrite trim_nil_iff).
  assert (truthy_opt (VStr <$> Some uid) = true) as ->.
  { simpl. by rewrite bool_decide_eq_false_2. }
  rewrite Hsel. cbn [negb orb].
  unfold existingInteractions. rewrite Hhist. cbn [truthy].
  by rewrite (mapM_None_2 _ _ Hbad).
Qed.

Lemma unreadable_history_blocks_appending_witness :
  let legacy := VObj {[ k_data := VStr (lit "2024-01-01") ]} in
  let investor : obj := {[ k_historicoDeInteracoes := VArr [legacy] ]} in
  handleAddInteraction sample_appId true 1000 (Some sample_uid)
    (Some (VStr (lit "p1"))) investor false (lit "Email") (lit "A") store_with_acme
  = (store_with_acme, [ShowToast msg_interaction_failed error]).
Proof.
  intros legacy investor.
  apply (unreadable_history_blocks_appending sample_appId true 1000 sample_uid
           (Some (VStr (lit "p1"))) investor (lit "Email") (lit "A") [legacy]).
  - not_blank_literal.
  - discriminate.
  - reflexivity.
  - reflexivity.
  - apply Exists_cons_hd. reflexivity.
Defined.

Lemma updateDoc_missing ok ref fields fs :
  docs fs !! ref = None →
  updateDoc ok ref fields fs
  = ({| docs := docs fs; requests := requests fs ++ [Update ref fields] |}, false).
Proof. intros H. unfold updateDoc. by rewrite H. Qed.

(** X18. An append never creates a pipeline entry: when the entry of the
    investor is not in the store, the update is refused, no document
    changes and an error is shown. *)
Theorem append_to_missing_entry_creates_nothing
    (appId : jsstring) (ok : bool) (now : Z) (uid pid iid : jsstring) (investor : obj)
    (interactionType interactionNotes : jsstring) (items : list value)
    (fs : Firestore) :
  let ref := [lit "artifacts"; appId; lit "users"; uid; lit "projects"; pid;
              lit "pipeline"] ++ [iid] in
  let r := handleAddInteraction appId ok now (Some uid) (Some (VStr pid)) investor
             false interactionType interactionNotes fs in
  valid_segment appId → valid_segment uid → valid_segment pid → valid_segment iid →
  ¬ blank interactionNotes →
  investor !! k_id = Some (VStr iid) →
  investor !! k_historicoDeInteracoes = Some (VArr items) →
  Forall stored_item items →
  docs fs !! ref = None →
  docs r.1 = docs fs ∧ r.2 = [ShowToast msg_interaction_failed error].
Proof.
  intros ref r Ha Hu Hp Hi Hnotes Hid Hhist Hitems Hentry. subst r ref.
  unfold handleAddInteraction.
  rewrite bool_decide_eq_false_2 by (by rewrite trim_nil_iff).
  assert (truthy_opt (VStr <$> Some uid) = true) as ->.
  { simpl. rewrite bool_decide_eq_false_2; [done|apply Hu]. }
  assert (truthy_opt (Some (VStr pid)) = true) as ->.
  { simpl. rewrite bool_decide_eq_false_2; [done|apply Hp]. }
  cbn [negb orb].
  unfold existingInteractions. rewrite Hhist. cbn [truthy].
  destruct (mapM_withDate_stored items Hitems) as (existing & -> & _).
  rewrite Hid, pipelineRef_Some by done.
  by rewrite (updateDoc_missing ok _ _ fs Hentry).
Qed.

Lemma append_to_missing_entry_creates_nothing_witness :
  let investor := mergeEntry {| doc_id := lit "i1"; doc_data := defaultEntry |}
                    (withId acme) in
  let r := handleAddInteraction sample_appId true 1000 (Some sample_uid)
             (Some (VStr (lit "p1"))) investor false (lit "Email") (lit "A")
             empty_store in
  docs r.1 = docs empty_store ∧ r.2 = [ShowToast msg_interaction_failed error].
Proof.
  apply (append_to_missing_entry_creates_nothing sample_appId true 1000 sample_uid
           (lit "p1") (lit "i1") _ (lit "Email") (lit "A") [] empty_store);
    try valid_literal.
  - not_blank_literal.
  - reflexivity.
  - reflexivity.
  - constructor.
  - reflexivity.
Defined.

(** ** Deleting a master investor *)

Lemma investorRef_Some appId uid i :
  valid_segment appId → valid_segment uid → valid_segment i →
  investorRef appId (Some uid) (Some (VStr i))
  = Some ([lit "artifacts"; appId; lit "users"; uid; lit "investors"] ++ [i]).
Proof.
  intros Ha Hu Hi. unfold investorRef, docRef.
  change [str "artifacts"; Some (VStr appId); str "users"; VStr <$> Some uid;
          str "investors"; Some (VStr i)]
    with ((fun s => Some (VStr s))
            <$> [lit "artifacts"; appId; lit "users"; uid; lit "investors"; i]).
  rewrite resourcePath_valid; [done|].
  repeat (constructor; [done || valid_literal|]). constructor.
Qed.

Lemma withId_id d :
  doc_data d !! k_id = None → withId d !! k_id = Some (VStr (doc_id d)).
Proof.
  intros H. unfold withId. rewrite lookup_union_r by done.
  by rewrite lookup_singleton_eq.
Qed.

(** X19. Deleting a master investor removes its document of the investor
    base and nothing else: every other document, the pipeline entries of
    the investor included, stays in the store.  In the base the next
    snapshot delivers no master carries the identifier any more, so such
    an entry yields no card. *)
Theorem deleted_investor_leaves_its_pipeline_entries
    (appId : jsstring) (toStringValue : option value → jsstring)
    (uid iid : jsstring) (investor : obj) (fs : Firestore) :
  let coll := [lit "artifacts"; appId; lit "users"; uid; lit "investors"] in
  let r := confirmDelete appId toStringValue true (Some uid) (Some investor) fs in
  valid_segment appId → valid_segment uid → valid_segment iid →
  investor !! k_id = Some (VStr iid) →
  (∀ d, d ∈ collectionDocs (docs fs) coll → doc_data d !! k_id = None) →
  docs r.1 !! (coll ++ [iid]) = None
  ∧ (∀ p, p ≠ coll ++ [iid] → docs r.1 !! p = docs fs !! p)
  ∧ (∀ entry, doc_id entry = iid →
       investorsInProject (withId <$> collectionDocs (docs r.1) coll) [entry] = [])
  ∧ r.2 = [ShowToast (msg_deleted toStringValue investor) success].
Proof.
  intros coll r Ha Hu Hi Hid Hnoid.
  assert (r = ({| docs := delete (coll ++ [iid]) (docs fs); requests := requests fs |},
               [ShowToast (msg_deleted toStringValue investor) success])) as ->.
  { subst r. unfold confirmDelete. by rewrite Hid, investorRef_Some. }
  cbn [fst snd docs]. split; [apply lookup_delete_eq|].
  split; [intros p Hp; by apply lookup_delete_ne|]. split; [|done].
  intros entry Hentry. rewrite investorsInProject_cons.
  destruct (findMaster _ _) as [m|] eqn:Hfind; [|done]. exfalso.
  apply findMaster_Some in Hfind as [Hm Hmid].
  apply list_elem_of_fmap in Hm as ([name data] & -> & Hd).
  pose proof Hd as Hd'. apply elem_of_collectionDocs in Hd'.
  destruct (decide (name = iid)) as [->|Hne].
  - by rewrite lookup_delete_eq in Hd'.
  - rewrite lookup_delete_ne in Hd' by (intros Heq; by simplify_list_eq).
    apply elem_of_collectionDocs, Hnoid in Hd'. simpl in Hd'.
    rewrite withId_id in Hmid by done. simpl in Hmid. congruence.
Qed.

Lemma deleted_investor_leaves_its_pipeline_entries_witness :
  let coll := [lit "artifacts"; sample_appId; lit "users"; sample_uid; lit "investors"] in
  let r := confirmDelete sample_appId sample_toString true (Some sample_uid)
             (Some (withId acme)) store_with_acme_master in
  docs r.1 !! (coll ++ [lit "i1"]) = None
  ∧ (∀ p, p ≠ coll ++ [lit "i1"] → docs r.1 !! p = docs store_with_acme_master !! p)
  ∧ (∀ entry, doc_id entry = lit "i1" →
       investorsInProject (withId <$> collectionDocs (docs r.1) coll) [entry] = [])
  ∧ r.2 = [ShowToast (msg_deleted sample_toString (withId acme)) success].
Proof.
  apply (deleted_investor_leaves_its_pipeline_entries sample_appId sample_toString
           sample_uid (lit "i1") (withId acme) store_with_acme_master);
    try valid_literal.
  - reflexivity.
  - intros [name data] Hd. apply elem_of_collectionDocs in Hd. simpl.
    unfold store_with_acme_master in Hd. cbn [docs] in Hd.
    apply lookup_insert_Some in Hd as [[_ <-]|[_ Hd]]; [reflexivity|].
    apply lookup_singleton_Some in Hd as [Hp _]. discriminate Hp.
Defined.

(** ** Saving a project *)

Lemma projectsCollection_Some appId uid :
  valid_segment appId → valid_segment uid →
  projectsCollection appId (Some uid)
  = Some [lit "artifacts"; appId; lit "users"; uid; lit "projects"].
Proof.
  intros Ha Hu. unfold projectsCollection, collectionRef.
  change [str "artifacts"; Some (VStr appId); str "users"; VStr <$> Some uid;
          str "projects"]
    with ((fun s => Some (VStr s))
            <$> [lit "artifacts"; appId; lit "users"; uid; lit "projects"]).
  rewrite resourcePath_valid; [done|].
  repeat (constructor; [done || valid_literal|]). constructor.
Qed.

Lemma projectRef_Some appId uid pid :
  valid_segment appId → valid_segment uid → valid_segment pid →
  projectRef appId (Some uid) (Some (VStr pid))
  = Some ([lit "artifacts"; appId; lit "users"; uid; lit "projects"] ++ [pid]).
Proof.
  intros Ha Hu Hp. unfold projectRef, docRef.
  change [str "artifacts"; Some (VStr appId); str "users"; VStr <$> Some uid;
          str "projects"; Some (VStr pid)]
    with ((fun s => Some (VStr s))
            <$> [lit "artifacts"; appId; lit "users"; uid; lit "projects"; pid]).
  rewrite resourcePath_valid; [done|].
  repeat (constructor; [done || valid_literal|]). constructor.
Qed.

(** X20. Submitting the form without a project to edit creates one
    project document under the identifier the store generates: it holds
    the name and the description of the form and the time of the
    submission as a timestamp; no other document changes, and the form
    reports success and closes. *)
Theorem new_project_is_stamped_with_creation_time
    (appId uid newId name description : jsstring) (now : Z) (fs : Firestore) :
  let ref := [lit "artifacts"; appId; lit "users"; uid; lit "projects"] ++ [newId] in
  let r := handleSubmit appId true newId now (Some uid) None
             {| form_name := Some (VStr name);
                form_description := Some (VStr description) |} fs in
  valid_segment appId → valid_segment uid →
  (∃ created,
     docs r.1 !! ref = Some created
     ∧ created !! k_name = Some (VStr name)
     ∧ created !! k_description = Some (VStr description)
     ∧ created !! k_createdAt = Some (VTimestamp now)
     ∧ dom created = {[ k_name; k_description; k_createdAt ]})
  ∧ (∀ p, p ≠ ref → docs r.1 !! p = docs fs !! p)
  ∧ r.2 = [ShowToast msg_project_created success; Close].
Proof.
  intros ref r Ha Hu. subst r. unfold handleSubmit.
  assert (truthy_opt (VStr <$> Some uid) = true) as ->.
  { simpl. rewrite bool_decide_eq_false_2; [done|apply Hu]. }
  cbn [negb]. rewrite projectsCollection_Some by done.
  cbn [formObject form_name form_description mbind option_bind].
  unfold addDoc. cbn [fst snd docs]. split; [|split; [|done]].
  - eexists. split; [apply lookup_insert_eq|].
    rewrite !fmap_insert, fmap_empty. cbn [toFirestore].
    split; [by rewrite lookup_insert_ne, lookup_insert_eq by key_neq|].
    split; [by rewrite !lookup_insert_ne, lookup_insert_eq by key_neq|].
    split; [by rewrite lookup_insert_eq|].
    rewrite !dom_insert_L, dom_empty_L. set_solver.
  - intros p Hp. by rewrite lookup_insert_ne.
Qed.

Lemma new_project_is_stamped_with_creation_time_witness :
  let ref := [lit "artifacts"; sample_appId; lit "users"; sample_uid; lit "projects"]
             ++ [lit "p9"] in
  let r := handleSubmit sample_appId true (lit "p9") 1000 (Some sample_uid) None
             {| form_name := Some (VStr (lit "Alpha"));
                form_description := Some (VStr []) |} empty_store in
  (∃ created,
     docs r.1 !! ref = Some created
     ∧ created !! k_name = Some (VStr (lit "Alpha"))
     ∧ created !! k_description = Some (VStr [])
     ∧ created !! k_createdAt = Some (VTimestamp 1000)
     ∧ dom created = {[ k_name; k_description; k_createdAt ]})
  ∧ (∀ p, p ≠ ref → docs r.1 !! p = docs empty_store !! p)
  ∧ r.2 = [ShowToast msg_project_created success; Close].
Proof.
  apply (new_project_is_stamped_with_creation_time sample_appId sample_uid (lit "p9")
           (lit "Alpha") [] 1000 empty_store); valid_literal.
Defined.

(** X21. Saving an edited project changes its name and its description
    and nothing else: every other field of the stored document, its
    creation time among them, and every other document stay as they
    were. *)
Theorem project_edit_keeps_the_other_fields
    (appId uid pid newId name description : jsstring) (now : Z)
    (project old : obj) (fs : Firestore) :
  let ref := [lit "artifacts"; appId; lit "users"; uid; lit "projects"] ++ [pid] in
  let r := handleSubmit appId true newId now (Some uid) (Some project)
             {| form_name := Some (VStr name);
                form_description := Some (VStr description) |} fs in
  valid_segment appId → valid_segment uid → valid_segment pid →
  project !! k_id = Some (VStr pid) →
  docs fs !! ref = Some old →
  (∃ saved,
     docs r.1 !! ref = Some saved
     ∧ saved !! k_name = Some (VStr name)
     ∧ saved !! k_description = Some (VStr description)
     ∧ (∀ k, k ≠ k_name → k ≠ k_description → saved !! k = old !! k))
  ∧ (∀ p, p ≠ ref → docs r.1 !! p = docs fs !! p)
  ∧ r.2 = [ShowToast msg_project_updated success; Close].
Proof.
  intros ref r Ha Hu Hp Hid Hold. subst r. unfold handleSubmit.
  assert (truthy_opt (VStr <$> Some uid) = true) as ->.
  { simpl. rewrite bool_decide_eq_false_2; [done|apply Hu]. }
  cbn [negb]. rewrite Hid, projectRef_Some by done.
  cbn [formObject form_name form_description mbind option_bind].
  rewrite (updateDoc_existing _ _ fs old Hold).
  cbn [fst snd docs]. split; [|split; [|done]].
  - eexists. split; [apply lookup_insert_eq|].
    rewrite !fmap_insert, fmap_empty. cbn [toFirestore].
    split; [by rewrite lookup_union_l', lookup_insert_eq
              by (by rewrite lookup_insert_eq)|].
    split.
    + rewrite lookup_union_l'; rewrite lookup_insert_ne, lookup_insert_eq by key_neq;
        done.
    + intros k Hk1 Hk2. rewrite lookup_union_r; [done|].
      by rewrite !lookup_insert_ne.
  - intros p Hp'. by rewrite lookup_insert_ne.
Qed.

Lemma project_edit_keeps_the_other_fields_witness :
  let ref := [lit "artifacts"; sample_appId; lit "users"; sample_uid; lit "projects"]
             ++ [lit "p1"] in
  let old : obj := <[k_createdAt := VTimestamp 500]> (doc_data alpha) in
  let fs := {| docs := {[ ref := old ]}; requests := [] |} in
  let r := handleSubmit sample_appId true (lit "p9") 1000 (Some sample_uid)
             (Some (withId alpha))
             {| form_name := Some (VStr (lit "Alpha II"));
                form_description := Some (VStr (lit "Series B")) |} fs in
  (∃ saved,
     docs r.1 !! ref = Some saved
     ∧ saved !! k_name = Some (VStr (lit "Alpha II"))
     ∧ saved !! k_description = Some (VStr (lit "Series B"))
     ∧ (∀ k, k ≠ k_name → k ≠ k_description → saved !! k = old !! k))
  ∧ (∀ p, p ≠ ref → docs r.1 !! p = docs fs !! p)
  ∧ r.2 = [ShowToast msg_project_updated success; Close].
Proof.
  intros ref old fs.
  apply (project_edit_keeps_the_other_fields sample_appId sample_uid (lit "p1")
           (lit "p9") (lit "Alpha II") (lit "Series B") 1000 (withId alpha) old fs);
    try valid_literal.
  - reflexivity.
  - apply lookup_singleton_eq.
Defined.

(** ** The state of the application over every run *)

Lemma foldl_applyUi_fields st us :
  let st' := foldl applyUi st us in
  userId st' = userId st ∧ projects st' = projects st
  ∧ selectedProjectId st' = selectedProjectId st
  ∧ masterInvestors st' = masterInvestors st
  ∧ projectInvestors st' = projectInvestors st
  ∧ projectsListener st' = projectsListener st.
Proof.
  revert st. induction us as [|u us IH]; intros st; [done|].
  cbn [foldl]. destruct (IH (applyUi st u)) as (-> & -> & -> & -> & -> & ->).
  by destruct u.
Qed.

Lemma pipelineEffect_sessionInvariant st :
  (signedIn st = false →
     projects st = [] ∧ masterInvestors st = [] ∧ projectsListener st = None) →
  sessionInvariant (pipelineEffect st).
Proof.
  unfold sessionInvariant, signedIn, projectChosen, pipelineEffect.
  intros H.
  destruct (truthy_opt (selectedProjectId st)) eqn:Hsel;
    destruct (truthy_opt (VStr <$> userId st)) eqn:Hu; cbn [negb orb];
    cbn [setProjectInvestors userId projects selectedProjectId masterInvestors
         projectInvestors projectsListener];
    rewrite ?Hsel, ?Hu; (split; [|done]); intros; try done;
    destruct H as (? & ? & ?); done.
Qed.

Lemma step_sessionInvariant appId fs st e :
  sessionInvariant st → sessionInvariant (step appId (fs, st) e).2.
Proof.
  intros Hinv. pose proof Hinv as [Hout Hnone].
  unfold signedIn, projectChosen in Hout, Hnone.
  destruct e as [user|snap|snap|snap|project|investor isMaster| |ok now ty notes];
    cbn [step].
  - case_bool_decide; [done|]. cbn [snd].
    apply pipelineEffect_sessionInvariant. unfold signedIn, userEffect.
    destruct (truthy_opt (VStr <$> user)) eqn:Hu; cbn [negb]; simpl; by rewrite ?Hu.
  - destruct (projectsListener st) as [captured|] eqn:Hl; [|done]. cbn [snd].
    apply pipelineEffect_sessionInvariant. unfold signedIn, onProjectsSnapshot.
    assert (truthy_opt (VStr <$> userId st) = true) as Hu.
    { destruct (truthy_opt (VStr <$> userId st)) eqn:Hu; [done|].
      destruct (Hout eq_refl) as (_ & _ & _ & Hl'). congruence. }
    repeat (case_match; simpl); by rewrite ?Hu.
  - destruct (truthy_opt (VStr <$> userId st)) eqn:Hu; [|done]. cbn [snd].
    apply pipelineEffect_sessionInvariant. unfold signedIn. simpl. by rewrite Hu.
  - destruct (truthy_opt (selectedProjectId st)) eqn:Hsel;
      destruct (truthy_opt (VStr <$> userId st)) eqn:Hu; cbn [andb]; try done.
    cbn [snd]. unfold sessionInvariant, signedIn, projectChosen. simpl.
    by rewrite Hsel, Hu.
  - cbn [snd]. apply pipelineEffect_sessionInvariant. unfold signedIn. simpl.
    intros Hu. destruct (Hout Hu) as (? & ? & _ & ?). done.
  - done.
  - done.
  - destruct (selectedInvestor st) as [investor|]; [|done].
    destruct (handleAddInteraction _ _ _ _ _ _ _ _ _ _) as [fs' us]. cbn [snd].
    destruct (foldl_applyUi_fields st us) as (Hf1 & Hf2 & Hf3 & Hf4 & Hf5 & Hf6).
    unfold sessionInvariant, signedIn, projectChosen.
    by rewrite Hf1, Hf2, Hf3, Hf4, Hf5, Hf6.
Qed.

(** X22. Whatever callbacks run, from the first render on: while nobody is
    signed in the application holds no project, no master investor and
    no pipeline investor and listens to no projects collection; and while
    no project is selected the pipeline list is empty. *)
Theorem session_invariant_holds_on_every_run
    (appId : jsstring) (fs : Firestore) (es : list event) :
  sessionInvariant (run appId (fs, initial) es).2.
Proof.
  assert (∀ w, sessionInvariant w.2 → sessionInvariant (run appId w es).2) as H.
  { induction es as [|e es IH]; intros w Hw; [done|].
    unfold run. cbn [foldl]. apply IH. destruct w as [fs' st].
    by apply step_sessionInvariant. }
  apply H. by split.
Qed.

(** ** Every write stays inside the account of the user *)

Lemma resourcePath_cons_valid s cs q :
  valid_segment s →
  resourcePath (Some (VStr s) :: cs) = Some q →
  ∃ q', q = s :: q' ∧ resourcePath cs = Some q'.
Proof.
  intros Hs. unfold resourcePath. rewrite fmap_Some. intros (pieces & Hm & ->).
  apply mapM_Some in Hm. apply Forall2_cons_inv_l in Hm as (y & k & Hy & Hk & ->).
  rewrite pathComponent_valid in Hy by done. injection Hy as <-.
  exists (concat k). split; [done|]. apply mapM_Some in Hk. by rewrite Hk.
Qed.

Lemma resourcePath_account appId uid cs q :
  valid_segment appId → valid_segment uid →
  resourcePath (str "artifacts" :: Some (VStr appId) :: str "users"
                :: Some (VStr uid) :: cs) = Some q →
  accountRoot appId uid `prefix_of` q.
Proof.
  intros Ha Hu H.
  apply resourcePath_cons_valid in H as (q1 & -> & H); [|valid_literal].
  apply resourcePath_cons_valid in H as (q2 & -> & H); [|done].
  apply resourcePath_cons_valid in H as (q3 & -> & H); [|valid_literal].
  apply resourcePath_cons_valid in H as (q4 & -> & H); [|done].
  by exists q4.
Qed.

Lemma docRef_account appId uid cs q :
  valid_segment appId → valid_segment uid →
  docRef (str "artifacts" :: Some (VStr appId) :: str "users"
          :: Some (VStr uid) :: cs) = Some q →
  accountRoot appId uid `prefix_of` q.
Proof.
  intros Ha Hu. unfold docRef. intros H.
  apply bind_Some in H as (q' & H & Hq). case_match; [|done]. injection Hq as <-.
  by apply (resourcePath_account _ _ cs).
Qed.

Lemma collectionRef_account appId uid cs q :
  valid_segment appId → valid_segment uid →
  collectionRef (str "artifacts" :: Some (VStr appId) :: str "users"
                 :: Some (VStr uid) :: cs) = Some q →
  accountRoot appId uid `prefix_of` q.
Proof.
  intros Ha Hu. unfold collectionRef. intros H.
  apply bind_Some in H as (q' & H & Hq). case_match; [|done]. injection Hq as <-.
  by apply (resourcePath_account _ _ cs).
Qed.

Lemma updateDoc_lookup_ne ok ref fields fs p :
  p ≠ ref → docs (updateDoc ok ref fields fs).1 !! p = docs fs !! p.
Proof.
  intros Hne. rewrite updateDoc_docs. destruct ok; [|done]. by apply lookup_alter_ne.
Qed.

Lemma prefix_snoc (root q : path) (x : jsstring) :
  root `prefix_of` q → root `prefix_of` q ++ [x].
Proof. intros H. by apply prefix_app_r. Qed.

(** X23. No handler writes outside the account of the signed-in user: a
    document whose path does not start with
    [artifacts/appId/users/userId] is the same before and after an
    import, an addition to a pipeline, a new interaction, a move or a new
    priority of a card, a deletion and the saving of a project. *)
Theorem handlers_write_inside_the_account
    (appId : jsstring) (toStringValue : option value → jsstring) (uid : jsstring)
    (p : path) (fs : Firestore) :
  valid_segment appId → valid_segment uid →
  ¬ accountRoot appId uid `prefix_of` p →
  (∀ env csvData,
     docs (handleImport appId env (Some uid) csvData fs).1 !! p = docs fs !! p)
  ∧ (∀ ok selectedProjectId selectedInvestors,
       docs (handleAdd appId ok (Some uid) selectedProjectId selectedInvestors fs).1 !! p
       = docs fs !! p)
  ∧ (∀ ok now selectedProjectId investor isMasterProfile interactionType notes,
       docs (handleAddInteraction appId ok now (Some uid) selectedProjectId investor
               isMasterProfile interactionType notes fs).1 !! p
       = docs fs !! p)
  ∧ (∀ ok selectedProjectId investorId newStatus,
       docs (handleDrop appId ok (Some uid) selectedProjectId investorId newStatus fs)
         !! p
       = docs fs !! p)
  ∧ (∀ ok selectedProjectId investorId newPriority,
       docs (handlePriorityChange appId ok (Some uid) selectedProjectId investorId
               newPriority fs) !! p
       = docs fs !! p)
  ∧ (∀ ok investorToDelete,
       docs (confirmDelete appId toStringValue ok (Some uid) investorToDelete fs).1 !! p
       = docs fs !! p)
  ∧ (∀ ok newId now projectToEdit formData,
       docs (handleSubmit appId ok newId now (Some uid) projectToEdit formData fs).1 !! p
       = docs fs !! p).
Proof.
  intros Ha Hu Hout.
  assert (∀ q, accountRoot appId uid `prefix_of` q → p ≠ q) as Hne.
  { intros q Hq ->. by apply Hout. }
  repeat split.
  - intros env csvData. unfold handleImport. case_bool_decide; [done|].
    destruct (investorsCollection appId (Some uid)) as [coll|] eqn:Hcoll; [|done].
    apply (collectionRef_account appId uid) in Hcoll; [|done..].
    unfold commit. destruct (commit_ok env); [|done]. cbn [fst docs].
    apply foldl_applyWrite_other. intros w Hw.
    apply elem_of_lookup_imap in Hw as (i & row & -> & _). cbn [w_ref].
    intros Heq. apply (Hne (coll ++ [auto_id env i])); [|done]. by apply prefix_snoc.
  - intros ok sel ids. unfold handleAdd. case_match; [done|].
    destruct (mapM _ ids) as [refs|] eqn:Hrefs; [|done].
    unfold commit. destruct ok; [|done]. cbn [fst docs].
    apply foldl_applyWrite_other. intros w Hw.
    apply list_elem_of_fmap in Hw as (ref & -> & Href). cbn [w_ref].
    apply mapM_Some in Hrefs.
    apply list_elem_of_lookup in Href as [i Href].
    destruct (Forall2_lookup_r _ _ _ _ _ Hrefs Href) as (x & _ & Hx).
    intros Heq. apply (Hne ref); [|done].
    by apply (docRef_account appId uid) in Hx.
  - intros ok now sel investor isMaster ty notes. unfold handleAddInteraction.
    case_match; [done|].
    destruct (existingInteractions investor) as [existing|]; [|done].
    destruct (pipelineRef _ _ _ _) as [ref|] eqn:Href; [|done].
    apply (docRef_account appId uid) in Href; [|done..].
    pose proof (updateDoc_lookup_ne ok ref
                  {[ k_historicoDeInteracoes :=
                       VArr (existing ++ [newInteraction now ty notes]) ]} fs p
                  (Hne ref Href)) as Hupd.
    destruct (updateDoc _ _ _ _) as [fs' []]; exact Hupd.
  - intros ok sel iid newStatus. unfold handleDrop. case_match; [done|].
    destruct (pipelineRef _ _ _ _) as [ref|] eqn:Href; [|done].
    apply (docRef_account appId uid) in Href; [|done..].
    by apply updateDoc_lookup_ne, Hne.
  - intros ok sel iid n. unfold handlePriorityChange. case_match; [done|].
    destruct (pipelineRef _ _ _ _) as [ref|] eqn:Href; [|done].
    apply (docRef_account appId uid) in Href; [|done..].
    by apply updateDoc_lookup_ne, Hne.
  - intros ok [investor|]; [|done]. unfold confirmDelete.
    destruct (investorRef _ _ _) as [ref|] eqn:Href; [|done].
    apply (docRef_account appId uid) in Href; [|done..].
    unfold deleteDoc. destruct ok; [|done]. cbn [fst docs].
    by apply lookup_delete_ne, not_eq_sym, Hne.
  - intros ok newId now projectToEdit formData. unfold handleSubmit.
    case_match; [done|]. destruct projectToEdit as [project|].
    + destruct (projectRef _ _ _) as [ref|] eqn:Href; [|done].
      apply (docRef_account appId uid) in Href; [|done..].
      destruct (formObject formData) as [fields|]; [|done].
      pose proof (updateDoc_lookup_ne ok ref fields fs p (Hne ref Href)) as Hupd.
      destruct (updateDoc _ _ _ _) as [fs' []]; exact Hupd.
    + destruct (projectsCollection _ _) as [coll|] eqn:Hcoll; [|done].
      apply (collectionRef_account appId uid) in Hcoll; [|done..].
      destruct (formObject formData) as [fields|]; [|done].
      unfold addDoc. destruct ok; [|done]. cbn [fst docs].
      apply lookup_insert_ne, not_eq_sym, Hne. by apply prefix_snoc.
Qed.

Lemma handlers_write_inside_the_account_witness :
  let fs := store_with_acme_master in
  let p := foreign_ref in
  (∀ env csvData,
     docs (handleImport sample_appId env (Some sample_uid) csvData fs).1 !! p
     = docs fs !! p)
  ∧ (∀ ok selectedProjectId selectedInvestors,
       docs (handleAdd sample_appId ok (Some sample_uid) selectedProjectId
               selectedInvestors fs).1 !! p
       = docs fs !! p)
  ∧ (∀ ok now selectedProjectId investor isMasterProfile interactionType notes,
       docs (handleAddInteraction sample_appId ok now (Some sample_uid)
               selectedProjectId investor isMasterProfile interactionType notes fs).1
         !! p
       = docs fs !! p)
  ∧ (∀ ok selectedProjectId investorId newStatus,
       docs (handleDrop sample_appId ok (Some sample_uid) selectedProjectId investorId
               newStatus fs) !! p
       = docs fs !! p)
  ∧ (∀ ok selectedProjectId investorId newPriority,
       docs (handlePriorityChange sample_appId ok (Some sample_uid) selectedProjectId
               investorId newPriority fs) !! p
       = docs fs !! p)
  ∧ (∀ ok investorToDelete,
       docs (confirmDelete sample_appId sample_toString ok (Some sample_uid)
               investorToDelete fs).1 !! p
       = docs fs !! p)
  ∧ (∀ ok newId now projectToEdit formData,
       docs (handleSubmit sample_appId ok newId now (Some sample_uid) projectToEdit
               formData fs).1 !! p
       = docs fs !! p).
Proof.
  apply (handlers_write_inside_the_account sample_appId sample_toString sample_uid
           foreign_ref store_with_acme_master); try valid_literal.
  intros [k Hk]. discriminate Hk.
Defined.

(** ** The identifiers of the pipeline list *)

Lemma investorsInProject_ids masters snap :
  Forall (fun entry => doc_data entry !! k_id = None) snap →
  (fun inv : obj => inv !! k_id) <$> investorsInProject masters snap
  `sublist_of` (fun entry => Some (VStr (doc_id entry))) <$> snap.
Proof.
  induction 1 as [|entry snap Hentry _ IH]; [done|].
  rewrite investorsInProject_cons, (fmap_cons _ entry).
  destruct (findMaster masters (doc_id entry)) as [m|] eqn:Hfind.
  - apply findMaster_Some in Hfind as [_ Hm].
    rewrite fmap_cons, mergeEntry_id by done. by apply sublist_skip.
  - by apply sublist_cons.
Qed.

(** X24. The investors of a pipeline carry distinct identifiers: when the
    entries of the collection store no [id] field of their own, no two
    records of the list the join builds from a snapshot of the collection
    have the same [id], whatever the investor base holds. *)
Theorem pipeline_list_has_distinct_identifiers
    (masters : list obj) (d : gmap path obj) (coll : path) :
  (∀ entry, entry ∈ collectionDocs d coll → doc_data entry !! k_id = None) →
  NoDup ((fun inv : obj => inv !! k_id)
           <$> investorsInProject masters (collectionDocs d coll)).
Proof.
  intros Hnoid.
  apply (sublist_NoDup _ ((fun entry => Some (VStr (doc_id entry)))
                            <$> collectionDocs d coll)).
  - apply (NoDup_fmap_2_strong _).
    + intros [i x] [j y] Hi Hj Hij. injection Hij as ->. f_equal.
      apply elem_of_collectionDocs in Hi, Hj. congruence.
    + apply (NoDup_fmap_1 doc_id). apply NoDup_collectionIds.
  - apply investorsInProject_ids. by apply Forall_forall.
Qed.

Lemma pipeline_list_has_distinct_identifiers_witness :
  NoDup ((fun inv : obj => inv !! k_id)
           <$> investorsInProject [withId acme]
                 (collectionDocs (docs store_with_acme)
                    [lit "artifacts"; sample_appId; lit "users"; sample_uid;
                     lit "projects"; lit "p1"; lit "pipeline"])).
Proof.
  apply (pipeline_list_has_distinct_identifiers [withId acme] (docs store_with_acme)).
  intros [name data] Hd. apply elem_of_collectionDocs in Hd. simpl.
  unfold store_with_acme in Hd. cbn [docs] in Hd.
  apply lookup_singleton_Some in Hd as [_ <-]. reflexivity.
Defined.

(** ** From the import to the candidates of a project *)

(** X25. An imported investor can be added to a project at once: after a
    committed import, the investor base the subscription delivers holds
    the record of each line under its new identifier, and the modal
    without filters offers it for every project whose pipeline list has
    no record of that identifier. *)
Theorem imported_investor_is_offered_for_a_project
    (appId : jsstring) (env : ImportEnv) (uid header : jsstring)
    (lines : list jsstring) (fs : Firestore) (projectInvestors : list obj)
    (i : nat) (line : jsstring) :
  let coll := [lit "artifacts"; appId; lit "users"; uid; lit "investors"] in
  let r := handleImport appId env (Some uid) (joinLines (header :: lines)) fs in
  let masters := withId <$> collectionDocs (docs r.1) coll in
  let imported :=
    withId {| doc_id := auto_id env i;
              doc_data :=
                toFirestore
                  <$> mappedData (rowObject (csvHeaders [header])
                                            (split SEMI (trim line)))
                                 (clock env i) |} in
  valid_segment appId → valid_segment uid →
  well_formed_line header → Forall well_formed_line lines →
  (∀ i j, (i < length lines)%nat → (j < length lines)%nat →
          auto_id env i = auto_id env j → i = j) →
  commit_ok env = true →
  lines !! i = Some line →
  (∀ pi, pi ∈ projectInvestors → pi !! k_id ≠ Some (VStr (auto_id env i))) →
  imported ∈ availableInvestors masters projectInvestors [] []
  ∧ imported !! k_id = Some (VStr (auto_id env i)).
Proof.
  intros coll r masters imported Ha Hu Hh Hall Hfresh Hok Hline Hout.
  assert (imported !! k_id = Some (VStr (auto_id env i))) as Hid.
  { subst imported. apply withId_id. simpl.
    by rewrite lookup_fmap, mappedData_id_None. }
  split; [|done]. apply elem_of_availableInvestors.
  split; [|split; [|by split; left]].
  - subst masters imported. apply list_elem_of_fmap_2, elem_of_collectionDocs.
    subst r. unfold handleImport.
    rewrite bool_decide_eq_false_2 by (apply joinLines_header_not_blank, Hh).
    rewrite investorsToImport_joinLines by done.
    rewrite investorsCollection_Some by done. fold coll.
    set (rows := _ <$> lines).
    assert (length rows = length lines) as Hlen by apply length_fmap.
    set (batch := imap _ rows).
    assert (NoDup (w_ref <$> batch)) as Hnd.
    { apply importBatch_NoDup. by rewrite Hlen. }
    unfold commit. rewrite Hok. cbn [fst docs].
    assert (rows !! i = Some (rowObject (csvHeaders [header]) (split SEMI (trim line))))
      as Hrow.
    { subst rows. by rewrite list_lookup_fmap, Hline. }
    apply (importBatch_lookup env coll) in Hrow.
    by apply (foldl_applyWrite_NoDup (docs fs)) in Hrow.
  - intros pi Hpi. rewrite Hid. specialize (Hout pi Hpi).
    destruct (pi !! k_id) as [[| | |s| | | |]|]; try done.
    simpl. apply bool_decide_eq_false_2. congruence.
Qed.

Lemma imported_investor_is_offered_for_a_project_witness :
  let coll := [lit "artifacts"; sample_appId; lit "users"; sample_uid;
               lit "investors"] in
  let r := handleImport sample_appId sample_env (Some sample_uid)
             (joinLines (sample_header :: sample_lines)) empty_store in
  let imported :=
    withId {| doc_id := lit "inv0";
              doc_data :=
                toFirestore
                  <$> mappedData (rowObject (csvHeaders [sample_header])
                                            (split SEMI (trim (lit "Acme; 5 ;Tech"))))
                                 1700000000000 |} in
  imported ∈ availableInvestors (withId <$> collectionDocs (docs r.1) coll) [] [] []
  ∧ imported !! k_id = Some (VStr (lit "inv0")).
Proof.
  apply (imported_investor_is_offered_for_a_project sample_appId sample_env sample_uid
           sample_header sample_lines empty_store [] 0%nat (lit "Acme; 5 ;Tech")).
  - valid_literal.
  - valid_literal.
  - split; [not_in_literal|not_blank_literal].
  - unfold sample_lines.
    constructor; [split; [not_in_literal|not_blank_literal]|].
    constructor; [split; [not_in_literal|not_blank_literal]|].
    constructor.
  - intros i j Hi Hj Heq. simpl in Hi, Hj.
    destruct i as [|[|i]], j as [|[|j]]; try lia; try reflexivity;
      vm_compute in Heq; discriminate Heq.
  - reflexivity.
  - reflexivity.
  - intros pi Hpi. by apply elem_of_nil in Hpi.
Defined.
